(** * cm4_server/camera_server.py: the per-feed capture / broadcast engine

    A shallow embedding of [CameraStream] (capture loop, frame slot, adaptive
    FPS), of the [generate_mjpeg] generator and of [get_stats], followed by
    the properties of the specification that concern them.

    Conventions of the embedding:
    - Python [int] is [Z]; the values of [time.time()] and every duration are
      rationals ([Q]), so [1.0 / self.fps] is the exact quotient; in
      [get_stats], whose result shows the rounding, the arithmetic is that
      of binary64 floats;
    - [bytes] is [list byte];
    - code that raises runs in a state-and-exception monad [M] which also
      records the externally visible effects ([time.sleep], [logger] calls)
      in program order;
    - what the outside world decides (the camera driver, the clock, another
      thread calling [stop()]) is an explicit input of each operation. *)

From Stdlib Require Import ZArith QArith Qround Qpower List String Bool.
From Stdlib Require Import Lia Lqa.
From Stdlib Require Import DecimalString DecimalZ.
From Stdlib.Strings Require Import Byte Ascii.
Import ListNotations.
Open Scope Z_scope.

(** ** Configuration (module constants) *)

Definition RESOLUTION : Z * Z := (1920, 1080).
Definition TARGET_FPS : Z := 10.
Definition MIN_FPS : Z := 5.
Definition JPEG_QUALITY : Z := 80.

(** ** Data *)

Definition bytes := list byte.

(** A raw frame as returned by [picam.capture_array()]. *)
Definition ndarray := list byte.

(** A PIL image: built from a captured array or created blank. *)
Inductive Image :=
| Image_fromarray (a : ndarray)
| Image_new (size : Z * Z) (color : Z * Z * Z).

(** Python exceptions, by what [except Exception] distinguishes. *)
Inductive exn :=
| Exception (what : string)
| BaseException (what : string).

Inductive result (A : Type) :=
| Ok (a : A)
| Raise (e : exn).
Arguments Ok {A} a.
Arguments Raise {A} e.

(** The driver object held in [self.picam]. *)
Record Picamera2 := mkPicamera2 {
  cam_index : Z;
  cam_size : Z * Z;
  cam_started : bool
}.

Record CameraStream := mkCameraStream {
  camera_name : string;
  camera_index : Z;
  frame : option bytes;
  picam : option Picamera2;
  running : bool;
  clients : Z;
  fps : Z;
  frame_count : Z;
  start_time : Q;
  last_frame_time : Q
}.

(** [CameraStream.__init__], called when the clock reads [now]. *)
Definition init (name : string) (index : Z) (now : Q) : CameraStream :=
  {| camera_name := name; camera_index := index;
     frame := None; picam := None; running := false; clients := 0;
     fps := TARGET_FPS; frame_count := 0; start_time := now;
     last_frame_time := 0%Q |}.

Definition set_frame (v : option bytes) (s : CameraStream) : CameraStream :=
  mkCameraStream (camera_name s) (camera_index s) v (picam s) (running s)
    (clients s) (fps s) (frame_count s) (start_time s) (last_frame_time s).
Definition set_picam (v : option Picamera2) (s : CameraStream) : CameraStream :=
  mkCameraStream (camera_name s) (camera_index s) (frame s) v (running s)
    (clients s) (fps s) (frame_count s) (start_time s) (last_frame_time s).
Definition set_running (v : bool) (s : CameraStream) : CameraStream :=
  mkCameraStream (camera_name s) (camera_index s) (frame s) (picam s) v
    (clients s) (fps s) (frame_count s) (start_time s) (last_frame_time s).
Definition set_clients (v : Z) (s : CameraStream) : CameraStream :=
  mkCameraStream (camera_name s) (camera_index s) (frame s) (picam s)
    (running s) v (fps s) (frame_count s) (start_time s) (last_frame_time s).
Definition set_fps (v : Z) (s : CameraStream) : CameraStream :=
  mkCameraStream (camera_name s) (camera_index s) (frame s) (picam s)
    (running s) (clients s) v (frame_count s) (start_time s)
    (last_frame_time s).
Definition set_frame_count (v : Z) (s : CameraStream) : CameraStream :=
  mkCameraStream (camera_name s) (camera_index s) (frame s) (picam s)
    (running s) (clients s) (fps s) v (start_time s) (last_frame_time s).
Definition set_last_frame_time (v : Q) (s : CameraStream) : CameraStream :=
  mkCameraStream (camera_name s) (camera_index s) (frame s) (picam s)
    (running s) (clients s) (fps s) (frame_count s) (start_time s) v.

(** ** Effects *)

Inductive level := INFO | WARNING | ERROR.

Inductive event :=
| Sleep (seconds : Q)
| Log (l : level) (camera : string)
| Yield (chunk : list byte).

Definition is_sleep (e : event) : bool :=
  match e with Sleep _ => true | _ => false end.

(** State, exceptions and the trace of effects. *)
Definition M (A : Type) : Type :=
  CameraStream -> result A * CameraStream * list event.

Definition ret {A} (a : A) : M A := fun s => (Ok a, s, []).

Definition bind {A B} (m : M A) (f : A -> M B) : M B := fun s =>
  match m s with
  | (Ok a, s1, ev1) =>
      match f a s1 with (r, s2, ev2) => (r, s2, ev1 ++ ev2) end
  | (Raise e, s1, ev1) => (Raise e, s1, ev1)
  end.

Declare Scope py_scope.
Delimit Scope py_scope with py.
Notation "x <- m ;; k" := (bind m (fun x => k))
  (at level 61, m at next level, right associativity) : py_scope.
Notation "m ;; k" := (bind m (fun _ => k))
  (at level 61, right associativity) : py_scope.
Open Scope py_scope.

Definition get : M CameraStream := fun s => (Ok s, s, []).
Definition modify (f : CameraStream -> CameraStream) : M unit :=
  fun s => (Ok tt, f s, []).
Definition emit (e : event) : M unit := fun s => (Ok tt, s, [e]).
(** The outcome of a call into an external collaborator. *)
Definition call {A} (r : result A) : M A := fun s => (r, s, []).

Definition time_sleep (d : Q) : M unit := emit (Sleep d).
Definition logger (l : level) : M unit :=
  s <- get ;; emit (Log l (camera_name s)).

(** [try: m  except Exception: h] -- a [BaseException] passes through. *)
Definition try_except_Exception {A} (m : M A) (h : string -> M A) : M A :=
  fun s =>
  match m s with
  | (Raise (Exception w), s1, ev1) =>
      match h w s1 with (r, s2, ev2) => (r, s2, ev1 ++ ev2) end
  | other => other
  end.

(** [with self.lock: m]: the body runs as one step of the owning thread. *)
Definition with_lock {A} (m : M A) : M A := m.

(** ** Arithmetic helpers *)

Definition Qlt_bool (a b : Q) : bool := negb (Qle_bool b a).

(** Python's [max(a, b)] on numbers: [b] only when it is strictly larger. *)
Definition py_max (a b : Q) : Q := if Qlt_bool a b then b else a.

(** ** What the environment supplies *)

(** Answers of the driver during [initialize_camera]: the constructor
    [Picamera2(index)], then [configure] and [start]. *)
Record InitInput := mkInitInput {
  open_camera : result unit;
  configure_and_start : result unit
}.

(** One pass through the body of [while self.running]. *)
Record CycleInput := mkCycleInput {
  t_loop_start : Q;            (* time.time() on line 79 *)
  capture : result ndarray;    (* self.picam.capture_array() *)
  t_publish : Q;               (* time.time() on line 95 *)
  t_after : Q;                 (* time.time() on line 103 *)
  stop_called : bool           (* another thread ran stop() meanwhile *)
}.

(** Where control is when the supplied inputs are used up. *)
Inductive loop_state :=
| Looping       (* still inside [while self.running] *)
| Exited.       (* [capture_loop] is over *)

Definition Picamera2_stop (p : Picamera2) : Picamera2 :=
  mkPicamera2 (cam_index p) (cam_size p) false.

(** ** CameraStream *)

(** Lines 92-95, the block under [with self.lock] that stores a captured
    frame; [now] is the value of [time.time()] read inside it.  Two
    assignments, an increment and a clock reading: nothing here raises. *)
Definition publish (jpeg_bytes : bytes) (now : Q) : M unit :=
  with_lock
    (modify (set_frame (Some jpeg_bytes)) ;;
     modify (fun s => set_frame_count (frame_count s + 1) s) ;;
     modify (set_last_frame_time now)).

Section Feed.

(** The image encoder, [img.save(buffer, format='JPEG', quality=q)] followed
    by [buffer.getvalue()]. *)
Variable jpeg_encode : Image -> Z -> result bytes.

Definition initialize_camera (i : InitInput) : M bool :=
  try_except_Exception
    (call (open_camera i) ;;
     modify (fun s =>
       set_picam (Some (mkPicamera2 (camera_index s) (0, 0) false)) s) ;;
     call (configure_and_start i) ;;
     modify (fun s =>
       set_picam (Some (mkPicamera2 (camera_index s) RESOLUTION true)) s) ;;
     logger INFO ;;
     ret true)
    (fun _ =>
     logger ERROR ;;
     modify (set_picam None) ;;
     ret false).

Definition _create_placeholder_frame : M unit :=
  let img := Image_new RESOLUTION (50, 50, 50) in
  data <- call (jpeg_encode img 50) ;;
  with_lock (modify (set_frame (Some data))) ;;
  logger INFO.

(** Lines 83-95: the body of the inner [try]. *)
Definition capture_and_publish (i : CycleInput) : M unit :=
  s <- get ;;
  array <- match picam s with
           | Some _ => call (capture i)
           | None => call (Raise (Exception "AttributeError"%string))
           end ;;
  let img := Image_fromarray array in
  jpeg_bytes <- call (jpeg_encode img JPEG_QUALITY) ;;
  publish jpeg_bytes (t_publish i).

(** Lines 102-113: pacing after a captured frame. *)
Definition adaptive_fps (capture_time : Q) : M unit :=
  s <- get ;;
  if fps s =? 0 then call (Raise (Exception "ZeroDivisionError"%string)) else
  let target_interval := (1 / inject_Z (fps s))%Q in
  let sleep_time := py_max 0 (target_interval - capture_time) in
  if Qlt_bool 0 sleep_time then
    time_sleep sleep_time
  else if fps s >? MIN_FPS then
    modify (set_fps (Z.max MIN_FPS (fps s - 1))) ;;
    logger WARNING
  else ret tt.

(** One iteration of [while self.running]; [continue] in the handler skips
    the pacing. *)
Definition iteration (i : CycleInput) : M unit :=
  let loop_start := t_loop_start i in
  captured <- try_except_Exception
                (capture_and_publish i ;; ret true)
                (fun _ => logger ERROR ;; time_sleep (1 # 10) ;; ret false) ;;
  if (captured : bool) then adaptive_fps (t_after i - loop_start) else ret tt.

Definition stop : M unit := modify (set_running false).

(** [while self.running: ...] over the inputs of its successive iterations.
    A [stop()] issued by another thread during an iteration takes effect on
    the flag and is seen by the next test of the loop condition. *)
Fixpoint while_running (ins : list CycleInput) (s : CameraStream)
  : result loop_state * CameraStream * list event :=
  if running s then
    match ins with
    | [] => (Ok Looping, s, [])
    | i :: rest =>
        (iteration i ;;
         (if stop_called i then stop else ret tt) ;;
         while_running rest) s
    end
  else (Ok Exited, s, []).

(** The [finally] block of [capture_loop]. *)
Definition release : M unit :=
  s <- get ;;
  match picam s with
  | Some p => modify (set_picam (Some (Picamera2_stop p))) ;; logger INFO
  | None => ret tt
  end.

(** [try: m  finally: fin]; the block is not reached while control is still
    in the loop. *)
Definition try_finally (m : M loop_state) (fin : M unit) : M loop_state :=
  fun s =>
  match m s with
  | (Ok Looping, s1, ev1) => (Ok Looping, s1, ev1)
  | (r, s1, ev1) =>
      match fin s1 with
      | (Ok _, s2, ev2) => (r, s2, ev1 ++ ev2)
      | (Raise e, s2, ev2) => (Raise e, s2, ev1 ++ ev2)
      end
  end.

Definition capture_loop (ii : InitInput) (ins : list CycleInput)
  : M loop_state :=
  modify (set_running true) ;;
  ok <- initialize_camera ii ;;
  if negb ok then
    _create_placeholder_frame ;;
    ret Exited
  else
    try_finally (while_running ins) release.

End Feed.

Definition get_frame : M (option bytes) :=
  with_lock (s <- get ;; ret (frame s)).

(** *** Floating point

    Python's [float] is the IEEE 754 binary64 format.  A finite float is
    modelled by the rational number it stands for (the two zeros are not
    told apart), and every operation rounds its exact result to the nearest
    float, ties going to the even significand. *)
Inductive float :=
| Finite (q : Q)
| Infinity (negative : bool).

(** [floor (log2 (n / d))] *)
Definition floor_log2 (n d : positive) : Z :=
  let l := Z.log2 (Z.pos n) - Z.log2 (Z.pos d) in
  if Z.pos n * 2 ^ Z.max 0 (- l) <? Z.pos d * 2 ^ Z.max 0 l
  then l - 1 else l.

(** Nearest integer, ties to the even one. *)
Definition round_half_even (q : Q) : Z :=
  let n := Qfloor q in
  match (q - inject_Z n ?= 1 # 2)%Q with
  | Lt => n
  | Gt => n + 1
  | Eq => if Z.even n then n else n + 1
  end.

(** The exponent at which a positive rational is rounded: that of a
    significand of 53 bits, and at least -1074. *)
Definition exponent (q : Q) : Z :=
  Z.max (floor_log2 (Z.to_pos (Qnum q)) (Qden q) - 52) (-1074).

(** The rational rounded to a whole significand at that exponent. *)
Definition rounded (q : Q) : Q :=
  inject_Z (round_half_even (q / 2 ^ exponent q)) * 2 ^ exponent q.

(** The float nearest to a positive rational; [None] from [2 ^ 1024] on. *)
Definition nearest_pos (q : Q) : option Q :=
  let x := Qred (rounded q) in
  if Qle_bool (2 ^ 1024) x then None else Some x.

(** The float nearest to a rational, infinite beyond the range. *)
Definition nearest (q : Q) : float :=
  match (q ?= 0)%Q with
  | Eq => Finite 0
  | Gt => match nearest_pos q with
          | Some x => Finite x
          | None => Infinity false
          end
  | Lt => match nearest_pos (- q) with
          | Some x => Finite (- x)
          | None => Infinity true
          end
  end.

(** [x - y] for two finite floats. *)
Definition float_sub (x y : Q) : float := nearest (x - y).


(** [x > 0] *)
Definition float_gt_0 (x : float) : bool :=
  match x with
  | Finite q => Qlt_bool 0 q
  | Infinity negative => negb negative
  end.

(** The conversion of an [int] operand of a float operation. *)
Definition int_to_float (n : Z) : result Q :=
  match nearest (inject_Z n) with
  | Finite x => Ok x
  | Infinity _ =>
      Raise (Exception "int too large to convert to float"%string)
  end.

(** [n / y] for an [int] [n] and a float [y]. *)
Definition int_truediv (n : Z) (y : float) : result float :=
  match int_to_float n with
  | Raise e => Raise e
  | Ok x =>
      match y with
      | Finite q =>
          if Qeq_bool q 0
          then Raise (Exception "float division by zero"%string)
          else Ok (nearest (x / q))
      | Infinity _ => Ok (Finite 0)
      end
  end.

(** A Python number: [0] is an [int], a quotient is a [float]. *)
Inductive number :=
| Int (n : Z)
| Float (x : float).

(** *** get_stats *)

(** Values stored in the dictionary returned by [get_stats]. *)
Inductive value :=
| VStr (s : string)
| VInt (n : Z)
| VFloat (x : float)
| VBool (b : bool).

Definition dict := list (string * value).

Fixpoint dict_get (k : string) (d : dict) : option value :=
  match d with
  | [] => None
  | (k', v) :: rest => if String.eqb k k' then Some v else dict_get k rest
  end.


(** [round(x, ndigits)] for [ndigits >= 0]: an [int] is returned as it is;
    a finite float is rounded, as the exact number it stands for, to
    [ndigits] decimals, ties to even, and the float nearest to that decimal
    is returned. *)
Definition py_round (x : number) (ndigits : Z) : value :=
  match x with
  | Int n => VInt n
  | Float (Finite q) =>
      let scale := 10 ^ ndigits in
      VFloat (nearest (round_half_even (q * inject_Z scale)
                         # Z.to_pos scale))
  | Float (Infinity negative) => VFloat (Infinity negative)
  end.

Definition get_stats (now : Q) : M dict :=
  s <- get ;;
  let elapsed := float_sub now (start_time s) in
  actual_fps <- (if float_gt_0 elapsed
                 then x <- call (int_truediv (frame_count s) elapsed) ;;
                      ret (Float x)
                 else ret (Int 0)) ;;
  ret [ ("camera"%string, VStr (camera_name s));
        ("clients"%string, VInt (clients s));
        ("target_fps"%string, VInt (fps s));
        ("actual_fps"%string, py_round actual_fps 2);
        ("frames_captured"%string, VInt (frame_count s));
        ("running"%string, VBool (running s));
        ("has_camera"%string,
          VBool (match picam s with Some _ => true | None => false end)) ].

(** ** generate_mjpeg *)

(** [b'--frame\r\nContent-Type: image/jpeg\r\n\r\n' + frame + b'\r\n'] *)
Definition CRLF : bytes := [x0d; x0a].
Definition multipart (frame : bytes) : bytes :=
  list_byte_of_string "--frame" ++ CRLF ++
  list_byte_of_string "Content-Type: image/jpeg" ++ CRLF ++ CRLF ++
  frame ++ CRLF.

(** Where one generator stands.  [camera_stream.clients += 1] reads the
    attribute and stores the sum as two separate steps, with no lock held;
    the value read is kept in between. *)
Inductive gen_pc :=
| Created                (* generator object made, body not entered *)
| Connecting (tmp : Z)   (* line 155: clients read, sum not stored yet *)
| Polling                (* top of [while True] *)
| Yielded                (* suspended at [yield] *)
| Leaving (tmp : Z)      (* line 173: clients read, difference not stored *)
| Finished.

(** One step of a generator.  [close] says, for a generator suspended at
    [yield], whether the server closes it (the client went away or the
    write failed: GeneratorExit is thrown in) instead of resuming it. *)
Definition generate_mjpeg (close : bool) (pc : gen_pc) : M gen_pc :=
  match pc with
  | Created =>
      s <- get ;; ret (Connecting (clients s))
  | Connecting tmp =>
      modify (set_clients (tmp + 1)) ;; logger INFO ;; ret Polling
  | Polling =>
      frame <- get_frame ;;
      match frame with
      | None => time_sleep (1 # 100) ;; ret Polling
      | Some f => emit (Yield (multipart f)) ;; ret Yielded
      end
  | Yielded =>
      s <- get ;;
      if close || (fps s =? 0) then ret (Leaving (clients s))
      else time_sleep (1 / inject_Z (fps s)) ;; ret Polling
  | Leaving tmp =>
      modify (set_clients (tmp - 1)) ;; logger INFO ;; ret Finished
  | Finished => ret Finished
  end.

(** A generator driven for several steps; [closes] gives, step by step, the
    server's choice at a [yield]. *)
Fixpoint run_generator (closes : list bool) (pc : gen_pc) : M gen_pc :=
  match closes with
  | [] => ret pc
  | c :: rest => pc' <- generate_mjpeg c pc ;; run_generator rest pc'
  end.

(** The chunks a trace hands to the HTTP layer. *)
Definition chunks (ev : list event) : list bytes :=
  flat_map (fun e => match e with Yield c => [c] | _ => [] end) ev.

(** ** Several viewers of one feed (Flask runs each request in a thread) *)

Fixpoint set_nth {A} (n : nat) (x : A) (l : list A) : list A :=
  match l, n with
  | [], _ => []
  | _ :: tl, O => x :: tl
  | hd :: tl, S k => hd :: set_nth k x tl
  end.

(** Thread [who] takes one step on the shared feed. *)
Definition thread_step (who : nat) (close : bool)
    (st : CameraStream * list gen_pc) : CameraStream * list gen_pc :=
  let (s, vs) := st in
  match nth_error vs who with
  | None => st
  | Some pc =>
      match generate_mjpeg close pc s with
      | (Ok pc', s', _) => (s', set_nth who pc' vs)
      | (Raise _, s', _) => (s', vs)
      end
  end.

Definition run_schedule (sched : list (nat * bool))
    (st : CameraStream * list gen_pc) : CameraStream * list gen_pc :=
  fold_left (fun st step => thread_step (fst step) (snd step) st) sched st.

(** Viewers that are connected: past the increment, not yet leaving. *)
Definition connected (pc : gen_pc) : bool :=
  match pc with Polling | Yielded => true | _ => false end.

Definition count_connected (vs : list gen_pc) : Z :=
  Z.of_nat (List.length (filter connected vs)).

(** A generator between the read and the write of [clients]. *)
Definition mid_update (pc : gen_pc) : bool :=
  match pc with Connecting _ | Leaving _ => true | _ => false end.

(** A step of thread [who] in which an update of [clients], once begun, is
    completed before any other thread runs -- what holding a lock around
    lines 155 and 173 would give. *)
Definition atomic_step (who : nat) (close : bool)
    (st : CameraStream * list gen_pc) : CameraStream * list gen_pc :=
  let st1 := thread_step who close st in
  match nth_error (snd st1) who with
  | Some pc => if mid_update pc then thread_step who close st1 else st1
  | None => st1
  end.

Definition run_atomic (sched : list (nat * bool))
    (st : CameraStream * list gen_pc) : CameraStream * list gen_pc :=
  fold_left (fun st step => atomic_step (fst step) (snd step) st) sched st.

(** No viewer is between its read and its write, and [clients] is the
    number of viewers past the increment and not yet leaving. *)
Definition counter_exact (st : CameraStream * list gen_pc) : Prop :=
  Forall (fun pc => mid_update pc = false) (snd st) /\
  clients (fst st) = count_connected (snd st).

(** ** Everything that can happen to a feed *)

Inductive feed_op :=
| Op_capture_loop (ii : InitInput) (ins : list CycleInput)
| Op_iteration (i : CycleInput)
| Op_placeholder
| Op_release
| Op_stop
| Op_generate_mjpeg (close : bool) (pc : gen_pc)
| Op_get_frame
| Op_get_stats (now : Q).

Definition state_after {A} (m : M A) (s : CameraStream) : CameraStream :=
  snd (fst (m s)).

Definition result_of {A} (m : M A) (s : CameraStream) : result A :=
  fst (fst (m s)).

Section Operations.

Variable jpeg_encode : Image -> Z -> result bytes.

Definition run_op (op : feed_op) : CameraStream -> CameraStream :=
  match op with
  | Op_capture_loop ii ins => state_after (capture_loop jpeg_encode ii ins)
  | Op_iteration i => state_after (iteration jpeg_encode i)
  | Op_placeholder => state_after (_create_placeholder_frame jpeg_encode)
  | Op_release => state_after release
  | Op_stop => state_after stop
  | Op_generate_mjpeg close pc => state_after (generate_mjpeg close pc)
  | Op_get_frame => state_after get_frame
  | Op_get_stats now => state_after (get_stats now)
  end.

Definition run_ops (ops : list feed_op) (s : CameraStream) : CameraStream :=
  fold_left (fun s op => run_op op s) ops s.

(** The trace of one caught failure. *)
Definition backoff (s : CameraStream) : list event :=
  [Log ERROR (camera_name s); Sleep (1 # 10)].

(** A cycle of the loop whose capture or encoding raises an [Exception],
    with no [stop()] from elsewhere. *)
Definition transient_failure (s : CameraStream) (i : CycleInput) : Prop :=
  stop_called i = false /\
  exists w s1 ev1,
    capture_and_publish jpeg_encode i s = (Raise (Exception w), s1, ev1).

(** The state after a series of captured frames [(jpeg, time)] has been
    stored, one [publish] each. *)
Definition publish_all (pubs : list (bytes * Q)) (s : CameraStream)
  : CameraStream :=
  fold_left (fun s p => state_after (publish (fst p) (snd p)) s) pubs s.

(** Nothing but [clients] differs. *)
Definition same_but_clients (s s' : CameraStream) : Prop :=
  set_clients 0 s' = set_clients 0 s.


(** [initialize_camera] meets an [Exception], at the constructor or while
    configuring and starting. *)
Definition acquisition_fails (ii : InitInput) : Prop :=
  (exists w, open_camera ii = Raise (Exception w)) \/
  (open_camera ii = Ok tt /\
   exists w, configure_and_start ii = Raise (Exception w)).

(** What a viewer receives in [n] rounds of the loop of [generate_mjpeg]. *)
Definition rounds (s : CameraStream) (f : bytes) (n : nat) : list event :=
  List.concat (repeat [Yield (multipart f); Sleep (1 / inject_Z (fps s))] n).

(** The rate never goes up, and never falls through the floor. *)
Definition ratchet (s s' : CameraStream) : Prop :=
  fps s' <= fps s /\ (MIN_FPS <= fps s -> MIN_FPS <= fps s').

(** [m] takes every state to one related to it by [R]. *)
Definition respects (R : CameraStream -> CameraStream -> Prop) {A} (m : M A)
  : Prop :=
  forall s, R s (state_after m s).

End Operations.

(** ** A small encoder and inputs, to run the definitions on *)

(** Fails on an empty array; otherwise puts a marker before the data. *)
Definition toy_encode (img : Image) (quality : Z) : result bytes :=
  match img with
  | Image_fromarray [] => Raise (Exception "empty image"%string)
  | Image_fromarray a => Ok (x4a :: a)
  | Image_new _ _ => Ok [x50; x48]
  end.

Definition camera_ok : InitInput := mkInitInput (Ok tt) (Ok tt).
Definition camera_missing : InitInput :=
  mkInitInput (Raise (Exception "camera not found"%string)) (Ok tt).

(** A cycle that starts at [t0], captures [a] and ends at [t1]. *)
Definition good_cycle (a : ndarray) (t0 t1 : Q) : CycleInput :=
  mkCycleInput t0 (Ok a) t1 t1 false.

Definition left_feed : CameraStream := init "left"%string 0 1000.

(** The feed once its camera is up, before the first frame. *)
Definition left_started : CameraStream :=
  state_after (capture_loop toy_encode camera_ok []) left_feed.

(** The feed after one frame captured in 50 ms. *)
Definition left_streaming : CameraStream :=
  state_after
    (capture_loop toy_encode camera_ok
       [good_cycle [x01] 1000 (100005 # 100)]) left_feed.

(** A cycle measured at 150 ms. *)
Definition slow_cycle : CycleInput := good_cycle [x01] 1000 (100015 # 100).

(** A cycle whose frame cannot be encoded. *)
Definition bad_cycle : CycleInput := good_cycle [] 1001 (100101 # 100).



(** Two viewers connect at the same moment -- each reads [clients] before
    the other has stored its sum -- receive a frame, then leave one after
    the other. *)
Definition racing_connects : list (nat * bool) :=
  [(0, false); (1, false); (0, false); (1, false);
   (0, false); (1, false)]%nat.
Definition then_both_leave : list (nat * bool) :=
  [(0, true); (0, true); (1, true); (1, true)]%nat.

(** * cm4_server/ble_control_server.py: the command channel

    Text ([str]) is modelled by [string] and stands for ASCII text: the
    functions below follow Python on code points below 128.  On other text
    [str.strip()] and [str.upper()] do more (U+00A0 is stripped, U+017F is
    upper-cased to S), so every property of the dispatch is stated for the
    commands that satisfy [is_ascii].  A call into [subprocess] or into the
    D-Bus library is recorded in the trace when it is made; whether it then
    returns or raises is given, call site by call site, as an input. *)

Module Ble.

Local Open Scope string_scope.
Local Open Scope list_scope.
Local Infix "^^" := String.append (at level 60, right associativity).

Definition GATT_CHRC_IFACE : string := "org.bluez.GattCharacteristic1".
Definition SERVICE_UUID : string := "12345678-1234-5678-1234-56789abcdef0".

(** ** [str] methods *)

(** [c.isspace()] for an ASCII character: tab to carriage return, the four
    separators 28-31, and the space. *)
Definition isspace (c : ascii) : bool :=
  let n := nat_of_ascii c in
  ((9 <=? n) && (n <=? 13) || (28 <=? n) && (n <=? 32))%nat.

Definition is_ascii_char (c : ascii) : bool := (nat_of_ascii c <? 128)%nat.

Fixpoint is_ascii (s : string) : bool :=
  match s with
  | EmptyString => true
  | String c r => is_ascii_char c && is_ascii r
  end.

Fixpoint lstrip (s : string) : string :=
  match s with
  | EmptyString => EmptyString
  | String c r => if isspace c then lstrip r else s
  end.

Fixpoint rstrip (s : string) : string :=
  match s with
  | EmptyString => EmptyString
  | String c r =>
      match rstrip r with
      | EmptyString => if isspace c then EmptyString else String c EmptyString
      | r' => String c r'
      end
  end.

(** [s.strip()] *)
Definition strip (s : string) : string := rstrip (lstrip s).

(** The text before the first [sep], and the text after it if there is
    one. *)
Fixpoint split_once (sep : ascii) (s : string) : string * option string :=
  match s with
  | EmptyString => (EmptyString, None)
  | String c r =>
      if Ascii.eqb c sep then (EmptyString, Some r)
      else let (h, t) := split_once sep r in (String c h, t)
  end.

(** [s.split(':', 1)] *)
Definition split_colon_1 (s : string) : list string :=
  match split_once ":" s with
  | (h, None) => [h]
  | (h, Some t) => [h; t]
  end.

Definition upper_char (c : ascii) : ascii :=
  let n := nat_of_ascii c in
  if ((97 <=? n) && (n <=? 122))%nat then ascii_of_nat (n - 32) else c.

(** [s.upper()] *)
Fixpoint upper (s : string) : string :=
  match s with
  | EmptyString => EmptyString
  | String c r => String (upper_char c) (upper r)
  end.

(** [message.encode('utf-8')] on ASCII text. *)
Definition encode (s : string) : list byte := list_byte_of_string s.

(** ** Objects *)

(** The classes of characteristic, with what each adds to the base
    class. *)
Inductive chrc_class :=
| Plain
| CommandCharacteristic
| ResponseCharacteristic (notifying : bool).

Record Characteristic := mkCharacteristic {
  chrc_path : string;
  chrc_uuid : string;
  chrc_service : string;       (* the path of [self.service] *)
  chrc_flags : list string;
  chrc_value : list byte;
  chrc_class_of : chrc_class
}.

(** [ThirdEyeService]: its characteristics, and [self.response_char], which
    is the object at that position of the list. *)
Record ThirdEyeService := mkThirdEyeService {
  characteristics : list Characteristic;
  response_char : nat
}.

Definition set_class (k : chrc_class) (c : Characteristic) : Characteristic :=
  mkCharacteristic (chrc_path c) (chrc_uuid c) (chrc_service c)
    (chrc_flags c) (chrc_value c) k.

(** ** Effects *)

Inductive effect :=
| subprocess_run (argv : list string)
| Log (l : level) (message : string)
| dbus_call (object_path interface method : string)
| mainloop_run.

Definition B (A : Type) : Type :=
  ThirdEyeService -> result A * ThirdEyeService * list effect.

Definition ret {A} (a : A) : B A := fun s => (Ok a, s, []).

Definition bind {A C} (m : B A) (f : A -> B C) : B C := fun s =>
  match m s with
  | (Ok a, s1, ev1) =>
      match f a s1 with (r, s2, ev2) => (r, s2, ev1 ++ ev2) end
  | (Raise e, s1, ev1) => (Raise e, s1, ev1)
  end.

Declare Scope ble_scope.
Notation "x <- m ;; k" := (bind m (fun x => k))
  (at level 61, m at next level, right associativity) : ble_scope.
Notation "m ;; k" := (bind m (fun _ => k))
  (at level 61, right associativity) : ble_scope.
Local Open Scope ble_scope.

Definition get : B ThirdEyeService := fun s => (Ok s, s, []).
Definition put (s : ThirdEyeService) : B unit := fun _ => (Ok tt, s, []).
Definition emit (e : effect) : B unit := fun s => (Ok tt, s, [e]).
Definition call {A} (r : result A) : B A := fun s => (r, s, []).

(** [try: m  except Exception as e: h(str(e))] *)
Definition try_except {A} (m : B A) (h : string -> B A) : B A := fun s =>
  match m s with
  | (Raise (Exception w), s1, ev1) =>
      match h w s1 with (r, s2, ev2) => (r, s2, ev1 ++ ev2) end
  | other => other
  end.

(** [subprocess.run(argv, ...)]; [outcome] is the captured standard output
    or what the call raises. *)
Definition run (argv : list string) (outcome : result string) : B string :=
  emit (subprocess_run argv) ;; call outcome.

(** ** ResponseCharacteristic *)

Definition is_notifying (c : Characteristic) : bool :=
  match chrc_class_of c with
  | ResponseCharacteristic b => b
  | _ => false
  end.

Definition StartNotify (c : Characteristic) : Characteristic * list effect :=
  if is_notifying c then (c, [])
  else (set_class (ResponseCharacteristic true) c,
        [Log INFO "Response notifications enabled"]).

Definition StopNotify (c : Characteristic) : Characteristic * list effect :=
  if negb (is_notifying c) then (c, [])
  else (set_class (ResponseCharacteristic false) c,
        [Log INFO "Response notifications disabled"]).

(** What [str(e)] is for the [AttributeError] of a response
    characteristic asked for [PropertiesChanged]. *)
Definition no_PropertiesChanged : string :=
  "'ResponseCharacteristic' object has no attribute 'PropertiesChanged'".

(** [self.response_char.send_response(message)].  Neither
    [ResponseCharacteristic] nor [Characteristic] nor [dbus.service.Object]
    has an attribute [PropertiesChanged]: when [self.notifying] is set, the
    list [value] is built and the lookup of [self.PropertiesChanged] raises
    [AttributeError], so that nothing is sent and the line that logs the
    response is not reached. *)
Definition send_response (message : string) : B unit :=
  s <- get ;;
  match nth_error (characteristics s) (response_char s) with
  | None => call (Raise (Exception "IndexError"))
  | Some c =>
      if is_notifying c then
        let value := encode message in
        call (Raise (Exception no_PropertiesChanged))
      else ret tt
  end.

(** ** ThirdEyeService.handle_command *)

(** What the outside answers during one call of [handle_command]. *)
Record CommandInput := mkCommandInput {
  run1 : result string;        (* the first subprocess.run *)
  run2 : result string         (* the second one *)
}.

(** [parts[0]] *)
Definition first_part (parts : list string) : B string :=
  match parts with
  | p :: _ => ret p
  | [] => call (Raise (Exception "list index out of range"))
  end.

Definition handle_command (command : string) (i : CommandInput) : B string :=
  try_except
    (let parts := split_colon_1 (strip command) in
     part0 <- first_part parts ;;
     let cmd := upper part0 in
     if cmd =? "WIFI_STATUS" then
       out <- run ["systemctl"; "is-active"; "hostapd"] (run1 i) ;;
       let status := strip out in
       send_response ("WIFI:" ^^ status) ;;
       ret status
     else if cmd =? "WIFI_START" then
       run ["sudo"; "systemctl"; "start"; "hostapd"] (run1 i) ;;
       run ["sudo"; "systemctl"; "start"; "dnsmasq"] (run2 i) ;;
       send_response "WIFI:started" ;;
       ret "started"
     else if cmd =? "WIFI_STOP" then
       run ["sudo"; "systemctl"; "stop"; "hostapd"] (run1 i) ;;
       run ["sudo"; "systemctl"; "stop"; "dnsmasq"] (run2 i) ;;
       send_response "WIFI:stopped" ;;
       ret "stopped"
     else if cmd =? "CAMERA_START" then
       run ["sudo"; "systemctl"; "start"; "cm4-camera"] (run1 i) ;;
       send_response "CAMERA:started" ;;
       ret "started"
     else if cmd =? "CAMERA_STOP" then
       run ["sudo"; "systemctl"; "stop"; "cm4-camera"] (run1 i) ;;
       send_response "CAMERA:stopped" ;;
       ret "stopped"
     else if cmd =? "REBOOT" then
       send_response "REBOOTING" ;;
       run ["sudo"; "reboot"] (run1 i) ;;
       ret "rebooting"
     else if cmd =? "STATUS" then
       out1 <- run ["systemctl"; "is-active"; "hostapd"] (run1 i) ;;
       let wifi := strip out1 in
       out2 <- run ["systemctl"; "is-active"; "cm4-camera"] (run2 i) ;;
       let camera := strip out2 in
       let response := "STATUS:wifi=" ^^ wifi ^^ ",camera=" ^^ camera in
       send_response response ;;
       ret response
     else
       send_response ("ERROR:Unknown command: " ^^ cmd) ;;
       ret "error")
    (fun e =>
       emit (Log ERROR ("Command handler error: " ^^ e)) ;;
       send_response ("ERROR:" ^^ e) ;;
       ret "error").

(** ** Reading traces *)

(** The argument vectors handed to [subprocess.run], in order. *)
Definition runs (tr : list effect) : list (list string) :=
  flat_map (fun e => match e with subprocess_run a => [a] | _ => [] end) tr.

(** Everything [handle_command] can ever run. *)
Definition allowed_argv : list (list string) :=
  [ ["systemctl"; "is-active"; "hostapd"];
    ["systemctl"; "is-active"; "cm4-camera"];
    ["sudo"; "systemctl"; "start"; "hostapd"];
    ["sudo"; "systemctl"; "start"; "dnsmasq"];
    ["sudo"; "systemctl"; "stop"; "hostapd"];
    ["sudo"; "systemctl"; "stop"; "dnsmasq"];
    ["sudo"; "systemctl"; "start"; "cm4-camera"];
    ["sudo"; "systemctl"; "stop"; "cm4-camera"];
    ["sudo"; "reboot"] ].

(** The commands [handle_command] knows. *)
Definition known_commands : list string :=
  ["WIFI_STATUS"; "WIFI_START"; "WIFI_STOP"; "CAMERA_START"; "CAMERA_STOP";
   "REBOOT"; "STATUS"].

(** The word [handle_command] dispatches on. *)
Definition verb (command : string) : string :=
  match split_colon_1 (strip command) with
  | p :: _ => upper p
  | [] => EmptyString
  end.

Definition argv_eqb (a b : list string) : bool :=
  if list_eq_dec string_dec a b then true else false.

(** The service as [ThirdEyeService.__init__] builds it, with notifications
    off or on. *)
Definition service (notifying : bool) : ThirdEyeService :=
  mkThirdEyeService
    [ mkCharacteristic "/org/bluez/thirdeye/service0/char0"
        "12345678-1234-5678-1234-56789abcdef1"
        "/org/bluez/thirdeye/service0"
        ["write"; "write-without-response"] [] CommandCharacteristic;
      mkCharacteristic "/org/bluez/thirdeye/service0/char1"
        "12345678-1234-5678-1234-56789abcdef2"
        "/org/bluez/thirdeye/service0"
        ["read"; "notify"] [] (ResponseCharacteristic notifying) ]
    1.

(** Every outside call succeeds, with these outputs. *)
Definition all_well (out1 out2 : string) : CommandInput :=
  mkCommandInput (Ok out1) (Ok out2).

(** ** Object paths *)

Definition not_slash (c : ascii) : bool := negb (Ascii.eqb c "/").

(** [str(index)] for an [int]. *)
Definition str (index : Z) : string :=
  NilEmpty.string_of_int (Z.to_int index).

(** [Service.__init__]: [self.PATH_BASE + str(index)] *)
Definition service_path (index : Z) : string :=
  "/org/bluez/thirdeye/service" ^^ str index.

(** [Characteristic.__init__]: [service.path + '/char' + str(index)] *)
Definition characteristic_path (service : string) (index : Z) : string :=
  service ^^ "/char" ^^ str index.

(** [Advertisement.__init__] *)
Definition advertisement_path (index : Z) : string :=
  "/org/bluez/thirdeye/advertisement" ^^ str index.

(** ** Properties of the objects, and Application.GetManagedObjects *)

Definition GATT_SERVICE_IFACE : string := "org.bluez.GattService1".

(** The values that go into the property dictionaries. *)
Inductive dbus_value :=
| DString (s : string)
| DBoolean (b : bool)
| DObjectPath (p : string)
| DArrayString (l : list string)
| DArrayPath (l : list string)
| DArrayByte (l : list byte).

Definition properties := list (string * dbus_value).

Record Service := mkService {
  svc_path : string;
  svc_uuid : string;
  svc_primary : bool;
  svc_characteristics : list Characteristic
}.

Definition get_characteristic_paths (s : Service) : list string :=
  map chrc_path (svc_characteristics s).

Definition Service_get_properties (s : Service)
  : list (string * properties) :=
  [ (GATT_SERVICE_IFACE,
     [ ("UUID", DString (svc_uuid s));
       ("Primary", DBoolean (svc_primary s));
       ("Characteristics", DArrayPath (get_characteristic_paths s)) ]) ].

Definition Characteristic_get_properties (c : Characteristic)
  : list (string * properties) :=
  [ (GATT_CHRC_IFACE,
     [ ("Service", DObjectPath (chrc_service c));
       ("UUID", DString (chrc_uuid c));
       ("Flags", DArrayString (chrc_flags c));
       ("Value", DArrayByte (chrc_value c)) ]) ].

(** [d[key] = v] on a dictionary kept in insertion order: an existing key
    keeps its place and takes the new value. *)
Fixpoint dict_set {V} (key : string) (v : V) (d : list (string * V))
  : list (string * V) :=
  match d with
  | [] => [(key, v)]
  | (k, old) :: rest =>
      if String.eqb k key then (k, v) :: rest
      else (k, old) :: dict_set key v rest
  end.

Fixpoint dict_lookup {V} (key : string) (d : list (string * V)) : option V :=
  match d with
  | [] => None
  | (k, v) :: rest => if String.eqb k key then Some v else dict_lookup key rest
  end.

(** The inner loop of [GetManagedObjects]. *)
Definition add_characteristics (chrcs : list Characteristic)
    (response : list (string * list (string * properties)))
  : list (string * list (string * properties)) :=
  fold_left
    (fun r c => dict_set (chrc_path c) (Characteristic_get_properties c) r)
    chrcs response.

(** [Application.GetManagedObjects] *)
Definition GetManagedObjects (services : list Service)
  : list (string * list (string * properties)) :=
  fold_left
    (fun r s =>
       add_characteristics (svc_characteristics s)
         (dict_set (svc_path s) (Service_get_properties s) r))
    services [].

(** The objects of an application, each with its path and what it reports:
    every service followed by its characteristics. *)
Definition objects_of (services : list Service)
  : list (string * list (string * properties)) :=
  flat_map
    (fun s =>
       (svc_path s, Service_get_properties s)
       :: map (fun c => (chrc_path c, Characteristic_get_properties c))
            (svc_characteristics s))
    services.

(** The services of the application that [main] builds: the one
    [ThirdEyeService], index 0, with its two characteristics. *)
Definition thirdeye_services (notifying : bool) : list Service :=
  [ mkService "/org/bluez/thirdeye/service0" SERVICE_UUID true
      (characteristics (service notifying)) ].

(** ** find_adapter and main *)

Definition BLUEZ_ROOT : string := "/".
Definition DBUS_OM_IFACE : string := "org.freedesktop.DBus.ObjectManager".
Definition DBUS_PROP_IFACE : string := "org.freedesktop.DBus.Properties".
Definition GATT_MANAGER_IFACE : string := "org.bluez.GattManager1".
Definition LE_ADVERTISING_MANAGER_IFACE : string :=
  "org.bluez.LEAdvertisingManager1".

(** [key in d.keys()] *)
Definition has_key {V} (key : string) (d : list (string * V)) : bool :=
  existsb (String.eqb key) (map fst d).

(** The loop of [find_adapter] over [objects.items()], the dictionary that
    BlueZ returned: object path to interfaces to properties. *)
Fixpoint find_adapter {V} (objects : list (string * list (string * V)))
  : option string :=
  match objects with
  | [] => None
  | (o, props) :: rest =>
      if has_key GATT_MANAGER_IFACE props then Some o else find_adapter rest
  end.

(** How [mainloop.run()] ends. *)
Inductive loop_end :=
| LoopQuit
| KeyboardInterrupt
| LoopRaised (e : exn).

(** What the outside answers during [main]. *)
Record MainInput := mkMainInput {
  managed_objects : result (list (string * list (string * unit)));
  set_powered : result unit;
  set_discoverable : result unit;
  register_application : result unit;
  register_advertisement : result unit;
  loop : loop_end;
  unregister_advertisement : result unit;
  unregister_application : result unit
}.

(** A method call on a remote D-Bus object. *)
Definition dbus (object_path interface method : string)
    (outcome : result unit) : B unit :=
  emit (dbus_call object_path interface method) ;; call outcome.

(** [not adapter_path]: [None] and the empty path are false. *)
Definition falsy (o : option string) : bool :=
  match o with
  | Some (String _ _) => false
  | _ => true
  end.

(** ["=" * 60] and the newline. *)
Definition banner : string :=
  "============================================================".
Definition NL : string := String (ascii_of_nat 10) EmptyString.


(** [main].  The registrations are asynchronous: [register_application]
    and [register_advertisement] are what the calls themselves do; a
    rejection that arrives later reaches only the logging callbacks.
    Connecting to the bus and building the local proxies and objects is
    taken to succeed; the remote calls are the inputs.  The state is the
    service object, which [main] creates. *)
Definition main (i : MainInput) : B unit :=
  emit (Log INFO banner) ;;
  emit (Log INFO "Third Eye CM4 BLE Control Server") ;;
  emit (Log INFO banner) ;;
  emit (dbus_call BLUEZ_ROOT DBUS_OM_IFACE "GetManagedObjects") ;;
  objects <- call (managed_objects i) ;;
  let adapter_path := find_adapter objects in
  if falsy adapter_path then
    emit (Log ERROR "No Bluetooth adapter found")
  else
    let adapter :=
      match adapter_path with Some a => a | None => EmptyString end in
    emit (Log INFO ("Using adapter: " ^^ adapter)) ;;
    dbus adapter DBUS_PROP_IFACE "Set" (set_powered i) ;;
    dbus adapter DBUS_PROP_IFACE "Set" (set_discoverable i) ;;
    put (service false) ;;
    registered <-
      try_except
        (dbus adapter GATT_MANAGER_IFACE "RegisterApplication"
           (register_application i) ;;
         ret true)
        (fun e =>
           emit (Log ERROR ("Failed to register application: " ^^ e)) ;;
           ret false) ;;
    if negb registered then ret tt else
    advertised <-
      try_except
        (dbus adapter LE_ADVERTISING_MANAGER_IFACE "RegisterAdvertisement"
           (register_advertisement i) ;;
         ret true)
        (fun e =>
           emit (Log ERROR ("Failed to register advertisement: " ^^ e)) ;;
           ret false) ;;
    if negb advertised then ret tt else
    emit (Log INFO (NL ^^ banner)) ;;
    emit (Log INFO "BLE Server Ready!") ;;
    emit (Log INFO "Device Name: ThirdEye_CM4") ;;
    emit (Log INFO ("Service UUID: " ^^ SERVICE_UUID)) ;;
    emit (Log INFO "Waiting for connections...") ;;
    emit (Log INFO (banner ^^ NL)) ;;
    emit mainloop_run ;;
    pending <-
      match loop i with
      | LoopQuit => ret None
      | KeyboardInterrupt =>
          emit (Log INFO (NL ^^ "Shutting down...")) ;; ret None
      | LoopRaised e => ret (Some e)
      end ;;
    dbus adapter LE_ADVERTISING_MANAGER_IFACE "UnregisterAdvertisement"
      (unregister_advertisement i) ;;
    dbus adapter GATT_MANAGER_IFACE "UnregisterApplication"
      (unregister_application i) ;;
    match pending with
    | Some e => call (Raise e)
    | None => ret tt
    end.

(** How often a trace calls the D-Bus method [method]. *)
Definition count_calls (method : string) (tr : list effect) : nat :=
  List.length
    (filter (fun e => match e with
                      | dbus_call _ _ m => String.eqb m method
                      | _ => false
                      end) tr).

(** How often a trace enters the main loop. *)
Definition count_loops (tr : list effect) : nat :=
  List.length
    (filter (fun e => match e with mainloop_run => true | _ => false end) tr).

(** Every effect of [m], from any state, satisfies [P]. *)
Definition emits (P : effect -> Prop) {A} (m : B A) : Prop :=
  forall s, Forall P (snd (m s)).

(** A call of [subprocess.run] with one of the fixed argument vectors. *)
Definition allowed (e : effect) : Prop :=
  match e with
  | subprocess_run a => In a allowed_argv
  | _ => True
  end.

(** Every character of [s] satisfies [p]. *)
Fixpoint all_chars (p : ascii -> bool) (s : string) : bool :=
  match s with
  | EmptyString => true
  | String c r => p c && all_chars p r
  end.

Definition all_space (s : string) : bool := all_chars isspace s.
Definition no_colon (s : string) : bool :=
  all_chars (fun c => negb (Ascii.eqb c ":")) s.

(** [subprocess.run] returned, or raised something [except Exception]
    catches. *)
Definition not_fatal {A} (r : result A) : Prop :=
  match r with
  | Raise (BaseException _) => False
  | _ => True
  end.

(** The trace holds a call of [sudo reboot]. *)
Definition reboots (tr : list effect) : bool :=
  existsb (argv_eqb ["sudo"; "reboot"]) (runs tr).

Definition is_ok {A} (r : result A) : bool :=
  match r with Ok _ => true | Raise _ => false end.

(** The D-Bus calls that switch notifications on and off, as they reach the
    response characteristic of the service. *)
Inductive notify_call := Start | Stop.

Definition switches_on (k : notify_call) : bool :=
  match k with Start => true | Stop => false end.

Fixpoint replace_nth {A} (n : nat) (x : A) (l : list A) : list A :=
  match l, n with
  | [], _ => []
  | _ :: tl, O => x :: tl
  | hd :: tl, S k => hd :: replace_nth k x tl
  end.

Definition notify_method (k : notify_call) (s : ThirdEyeService)
  : ThirdEyeService :=
  match nth_error (characteristics s) (response_char s) with
  | None => s
  | Some c =>
      let c' := fst (match k with
                     | Start => StartNotify c
                     | Stop => StopNotify c
                     end) in
      mkThirdEyeService (replace_nth (response_char s) c' (characteristics s))
        (response_char s)
  end.

Definition notify_calls (ks : list notify_call) (s : ThirdEyeService)
  : ThirdEyeService :=
  fold_left (fun s k => notify_method k s) ks s.

End Ble.

(** ** More vocabulary for the properties *)

(** A cycle measured at 250 ms. *)
Definition late_cycle : CycleInput := good_cycle [x01] 1000 (100025 # 100).

(** A call of [time.sleep] with a positive duration (a negative one makes
    [time.sleep] raise). *)
Definition positive_sleep (e : event) : Prop :=
  match e with Sleep d => (0 < d)%Q | _ => True end.

(** Every effect of [m], from any state, satisfies [P]. *)
Definition emits (P : event -> Prop) {A} (m : M A) : Prop :=
  forall s, Forall P (snd (m s)).

(** A cycle that captures and encodes, undisturbed by [stop()]. *)
Definition captures (jpeg_encode : Image -> Z -> result bytes)
    (i : CycleInput) : Prop :=
  stop_called i = false /\
  exists a jpeg,
    capture i = Ok a /\
    jpeg_encode (Image_fromarray a) JPEG_QUALITY = Ok jpeg.

(** A cycle that takes at least the longest interval, [1 / MIN_FPS]. *)
Definition behind (i : CycleInput) : Prop :=
  (1 / inject_Z MIN_FPS <= t_after i - t_loop_start i)%Q.

(** How the frame slot may move: the counter does not go down; while it
    stands still the frame and its timestamp stand still; when it has gone
    up there is a frame. *)
Definition cache_advances (s s' : CameraStream) : Prop :=
  frame_count s <= frame_count s' /\
  (frame_count s' = frame_count s ->
   frame s' = frame s /\ last_frame_time s' = last_frame_time s) /\
  (frame_count s < frame_count s' -> frame s' <> None).

(** The capture thread publishing and one viewer stepping, in some order. *)
Inductive action :=
| Publish (jpeg : bytes) (now : Q)
| View (close : bool).

Fixpoint run_actions (acts : list action) (pc : gen_pc) : M gen_pc :=
  match acts with
  | [] => ret pc
  | Publish jpeg now :: rest => publish jpeg now ;; run_actions rest pc
  | View close :: rest =>
      pc' <- generate_mjpeg close pc ;; run_actions rest pc'
  end.

(** The frames published by a list of actions, in order. *)
Definition published (acts : list action) : list bytes :=
  flat_map (fun a => match a with Publish j _ => [j] | View _ => [] end)
    acts.

(** [follows seen frames]: [seen] runs through [frames] from left to right,
    possibly skipping frames and possibly seeing a frame several times, but
    never going back. *)
Inductive follows : list bytes -> list bytes -> Prop :=
| follows_done frames : follows [] frames
| follows_again f seen frames :
    follows seen (f :: frames) -> follows (f :: seen) (f :: frames)
| follows_skip f seen frames :
    follows seen frames -> follows seen (f :: frames).

Definition option_list {A} (o : option A) : list A :=
  match o with Some a => [a] | None => [] end.

(** * Properties *)

Section Properties.

Variable jpeg_encode : Image -> Z -> result bytes.

(** ** The body of the inner [try] *)

(** Unfolds the monadic plumbing of a goal or of a hypothesis. *)
Ltac unmonad :=
  unfold bind, ret, get, modify, emit, call, with_lock, logger, time_sleep,
    try_except_Exception in *; simpl in *.

(** Whatever makes the body raise, it raises before the first assignment. *)
Lemma capture_and_publish_raise i s e s1 ev1 :
  capture_and_publish jpeg_encode i s = (Raise e, s1, ev1) ->
  s1 = s /\ ev1 = [].
Proof.
  unfold capture_and_publish, publish. unmonad.
  destruct (picam s); simpl.
  - destruct (capture i) as [a|e0]; simpl.
    + destruct (jpeg_encode (Image_fromarray a) JPEG_QUALITY); simpl;
        intros H; inversion H; auto.
    + intros H; inversion H; auto.
  - intros H; inversion H; auto.
Qed.

(** When it returns, the frame, the counter and the timestamp are those of
    the new capture. *)
Lemma capture_and_publish_ok i s s1 ev1 :
  capture_and_publish jpeg_encode i s = (Ok tt, s1, ev1) ->
  exists a jpeg,
    capture i = Ok a /\
    jpeg_encode (Image_fromarray a) JPEG_QUALITY = Ok jpeg /\
    s1 = set_last_frame_time (t_publish i)
           (set_frame_count (frame_count s + 1) (set_frame (Some jpeg) s)) /\
    ev1 = [].
Proof.
  unfold capture_and_publish, publish. unmonad.
  destruct (picam s); simpl.
  - destruct (capture i) as [a|e0]; simpl.
    + destruct (jpeg_encode (Image_fromarray a) JPEG_QUALITY) as [j|e1] eqn:E;
        simpl; intros H; inversion H; subst.
      exists a, j. auto.
    + intros H; inversion H.
  - intros H; inversion H.
Qed.

(** A caught failure: logged, backed off for 0.1 s, nothing else. *)
Lemma iteration_caught i s w s1 ev1 :
  capture_and_publish jpeg_encode i s = (Raise (Exception w), s1, ev1) ->
  iteration jpeg_encode i s = (Ok tt, s, backoff s).
Proof.
  intros H. destruct (capture_and_publish_raise _ _ _ _ _ H) as [-> ->].
  unfold iteration. unmonad. rewrite H. reflexivity.
Qed.

(** A failure that [except Exception] does not catch leaves the iteration at
    once. *)
Lemma iteration_uncaught i s w s1 ev1 :
  capture_and_publish jpeg_encode i s = (Raise (BaseException w), s1, ev1) ->
  iteration jpeg_encode i s = (Raise (BaseException w), s, []).
Proof.
  intros H. destruct (capture_and_publish_raise _ _ _ _ _ H) as [-> ->].
  unfold iteration. unmonad. rewrite H. reflexivity.
Qed.

(** ** Failing cycles *)

(** C5. Transient capture/encode errors are not fatal: each one is logged
    and followed by the fixed 0.1 s backoff, and the loop goes on from the
    very same state; any number of consecutive failures leaves the feed
    streaming (still inside the loop, [running] set, camera not released). *)
Theorem transient_errors_are_retried
    (fails rest : list CycleInput) (s : CameraStream)
    (Hrun : running s = true)
    (Hfail : Forall (transient_failure jpeg_encode s) fails) :
  while_running jpeg_encode (fails ++ rest) s =
    (let '(r, s', ev) := while_running jpeg_encode rest s in
     (r, s', flat_map (fun _ => backoff s) fails ++ ev)) /\
  while_running jpeg_encode fails s =
    (Ok Looping, s, flat_map (fun _ => backoff s) fails).
Proof.
  assert (G : forall rest',
    while_running jpeg_encode (fails ++ rest') s =
    (let '(r, s', ev) := while_running jpeg_encode rest' s in
     (r, s', flat_map (fun _ => backoff s) fails ++ ev))).
  { intros rest'.
    induction Hfail as [|i fails' [Hstop (w & s1 & ev1 & Hi)] _ IH].
    - simpl. destruct (while_running jpeg_encode rest' s) as [[r s'] ev].
      reflexivity.
    - simpl. rewrite Hrun. unfold bind at 1.
      rewrite (iteration_caught _ _ _ _ _ Hi), Hstop.
      unfold bind at 1. unfold ret at 1. rewrite IH.
      destruct (while_running jpeg_encode rest' s) as [[r s'] ev].
      reflexivity. }
  split.
  - apply G.
  - specialize (G []). rewrite app_nil_r in G. rewrite G.
    simpl. rewrite Hrun, app_nil_r. reflexivity.
Qed.

(** C9. A cycle whose capture or encoding raises leaves the cached frame,
    [frame_count] and [last_frame_time] as they were: the state at the
    point of the raise is the state the cycle started from, and so is what
    [get_frame] returns after the iteration. *)
Theorem failed_cycle_leaves_cache_untouched
    (i : CycleInput) (s s1 : CameraStream) (e : exn) (ev1 : list event)
    (Hraise : capture_and_publish jpeg_encode i s = (Raise e, s1, ev1)) :
  s1 = s /\
  let s' := state_after (iteration jpeg_encode i) s in
  frame s' = frame s /\
  frame_count s' = frame_count s /\
  last_frame_time s' = last_frame_time s /\
  result_of get_frame s' = result_of get_frame s.
Proof.
  split.
  - apply (capture_and_publish_raise _ _ _ _ _ Hraise).
  - destruct e as [w|w].
    + unfold state_after. rewrite (iteration_caught _ _ _ _ _ Hraise).
      simpl. auto.
    + unfold state_after. rewrite (iteration_uncaught _ _ _ _ _ Hraise).
      simpl. auto.
Qed.

(** C10. A failed cycle never lowers the rate: whatever the clock read
    during it, the iteration ends with [fps] unchanged, and when the failure
    is caught its whole trace is the log line and the 0.1 s backoff -- the
    pacing code is not run. *)
Theorem failed_cycle_keeps_rate
    (i : CycleInput) (s s1 : CameraStream) (e : exn) (ev1 : list event)
    (Hraise : capture_and_publish jpeg_encode i s = (Raise e, s1, ev1)) :
  forall t0 tp t1 stopped,
    let i' := mkCycleInput t0 (capture i) tp t1 stopped in
    fps (state_after (iteration jpeg_encode i') s) = fps s /\
    (forall w, e = Exception w ->
       iteration jpeg_encode i' s = (Ok tt, s, backoff s)).
Proof.
  intros t0 tp t1 stopped i'.
  assert (Hraise' : capture_and_publish jpeg_encode i' s = (Raise e, s, [])).
  { destruct (capture_and_publish_raise _ _ _ _ _ Hraise) as [-> ->].
    revert Hraise. unfold capture_and_publish, publish. unmonad.
    destruct (picam s); simpl; [|auto].
    destruct (capture i) as [a|e0]; simpl; [|auto].
    destruct (jpeg_encode (Image_fromarray a) JPEG_QUALITY); simpl; [|auto].
    intros H; inversion H. }
  split.
  - unfold state_after. destruct e as [w|w].
    + rewrite (iteration_caught _ _ _ _ _ Hraise'). reflexivity.
    + rewrite (iteration_uncaught _ _ _ _ _ Hraise'). reflexivity.
  - intros w ->. apply (iteration_caught _ _ _ _ _ Hraise').
Qed.

(** ** Pacing *)

Lemma Qlt_bool_iff (a b : Q) : Qlt_bool a b = true <-> (a < b)%Q.
Proof.
  unfold Qlt_bool. rewrite negb_true_iff. split.
  - intros H. apply Qnot_le_lt. intros L.
    apply Qle_bool_iff in L. congruence.
  - intros H. destruct (Qle_bool b a) eqn:E; [|reflexivity].
    apply Qle_bool_iff in E. exfalso. exact (Qlt_not_le _ _ H E).
Qed.

Lemma Qlt_bool_false (a b : Q) : Qlt_bool a b = false <-> (b <= a)%Q.
Proof.
  unfold Qlt_bool. rewrite negb_false_iff. apply Qle_bool_iff.
Qed.

Lemma py_max_0_pos (x : Q) : (0 < x)%Q -> py_max 0 x = x.
Proof. intros H. unfold py_max. apply Qlt_bool_iff in H. now rewrite H. Qed.

Lemma py_max_0_nonpos (x : Q) : (x <= 0)%Q -> py_max 0 x = 0%Q.
Proof. intros H. unfold py_max. apply Qlt_bool_false in H. now rewrite H. Qed.

(** Ahead of schedule: sleep for the rest of the interval, rate untouched. *)
Lemma adaptive_fps_ahead (d : Q) (s : CameraStream) :
  0 < fps s ->
  (d < 1 / inject_Z (fps s))%Q ->
  adaptive_fps d s = (Ok tt, s, [Sleep (1 / inject_Z (fps s) - d)]).
Proof.
  intros Hpos Hd. unfold adaptive_fps. unmonad.
  destruct (fps s =? 0) eqn:E; [apply Z.eqb_eq in E; lia|].
  assert (P : (0 < 1 / inject_Z (fps s) - d)%Q).
  { apply (Qplus_lt_l _ _ d). ring_simplify. exact Hd. }
  rewrite (py_max_0_pos _ P). apply Qlt_bool_iff in P. rewrite P.
  reflexivity.
Qed.

(** Behind schedule: no sleep; one step down unless already at the floor. *)
Lemma adaptive_fps_behind (d : Q) (s : CameraStream) :
  MIN_FPS <= fps s ->
  (1 / inject_Z (fps s) <= d)%Q ->
  adaptive_fps d s =
    (Ok tt, set_fps (Z.max MIN_FPS (fps s - 1)) s,
     if fps s >? MIN_FPS then [Log WARNING (camera_name s)] else []).
Proof.
  intros Hmin Hd. unfold adaptive_fps. unmonad.
  destruct (fps s =? 0) eqn:E; [apply Z.eqb_eq in E; unfold MIN_FPS in *; lia|].
  assert (P : (1 / inject_Z (fps s) - d <= 0)%Q).
  { apply (Qplus_le_l _ _ d). ring_simplify. exact Hd. }
  rewrite (py_max_0_nonpos _ P).
  replace (Qlt_bool 0 0) with false by reflexivity.
  destruct (fps s >? MIN_FPS) eqn:G.
  - reflexivity.
  - assert (F : fps s = MIN_FPS) by lia.
    destruct s; simpl in *; subst. reflexivity.
Qed.

(** C1. The rate governor, for a cycle that captured and published a frame
    and measured [d = t_after - t_loop_start] at the rate [fps s]:
    if [d < 1/fps] the iteration sleeps exactly [1/fps - d] and keeps the
    rate; if [d >= 1/fps] it does not sleep and the rate becomes
    [max(MIN_FPS, fps - 1)].  A cycle of 150 ms at rate 10 ends at rate 9
    with a trace that holds the warning only.  In each case the rate is
    read from the feed as the iteration leaves it. *)
Theorem governor_step
    (i : CycleInput) (s s1 : CameraStream) (ev1 : list event)
    (Hmin : MIN_FPS <= fps s)
    (Hok : capture_and_publish jpeg_encode i s = (Ok tt, s1, ev1)) :
  let d := (t_after i - t_loop_start i)%Q in
  let target_interval := (1 / inject_Z (fps s))%Q in
  ((d < target_interval)%Q ->
     iteration jpeg_encode i s = (Ok tt, s1, [Sleep (target_interval - d)]) /\
     fps s1 = fps s /\
     fps (state_after (iteration jpeg_encode i) s) = fps s) /\
  ((target_interval <= d)%Q ->
     exists ev,
       iteration jpeg_encode i s =
         (Ok tt, set_fps (Z.max MIN_FPS (fps s - 1)) s1, ev) /\
       fps (state_after (iteration jpeg_encode i) s) =
         Z.max MIN_FPS (fps s - 1) /\
       MIN_FPS <= fps (state_after (iteration jpeg_encode i) s) <= fps s /\
       existsb is_sleep ev = false) /\
  (fps s = 10 -> (d == 150 # 1000)%Q ->
     iteration jpeg_encode i s =
       (Ok tt, set_fps 9 s1, [Log WARNING (camera_name s)]) /\
     fps (state_after (iteration jpeg_encode i) s) = 9).
Proof.
  intros d target_interval.
  destruct (capture_and_publish_ok _ _ _ _ Hok)
    as (a & jpeg & _ & _ & Hs1 & ->).
  assert (Hfps : fps s1 = fps s) by (subst s1; reflexivity).
  assert (Hname : camera_name s1 = camera_name s) by (subst s1; reflexivity).
  assert (Hit : iteration jpeg_encode i s = adaptive_fps d s1).
  { unfold iteration. unfold bind at 1. unfold try_except_Exception.
    unfold bind at 1. rewrite Hok. unfold ret at 1. fold d.
    destruct (adaptive_fps d s1) as [[r s2] ev2]. reflexivity. }
  assert (Hbehind : (target_interval <= d)%Q ->
            iteration jpeg_encode i s =
              (Ok tt, set_fps (Z.max MIN_FPS (fps s - 1)) s1,
               if fps s >? MIN_FPS then [Log WARNING (camera_name s)]
               else [])).
  { intros Hd. rewrite Hit, adaptive_fps_behind.
    - rewrite Hfps, Hname. reflexivity.
    - now rewrite Hfps.
    - now rewrite Hfps. }
  split; [|split].
  - intros Hd.
    assert (Hahead : iteration jpeg_encode i s =
                     (Ok tt, s1, [Sleep (target_interval - d)])).
    { rewrite Hit, adaptive_fps_ahead.
      + rewrite Hfps. reflexivity.
      + rewrite Hfps. unfold MIN_FPS in Hmin. lia.
      + now rewrite Hfps. }
    split; [exact Hahead|]. split; [exact Hfps|].
    unfold state_after. rewrite Hahead. exact Hfps.
  - intros Hd. eexists. split; [exact (Hbehind Hd)|].
    unfold state_after. rewrite (Hbehind Hd). cbn [fst snd].
    split; [reflexivity|]. split; [simpl fps; lia|].
    destruct (fps s >? MIN_FPS); reflexivity.
  - intros H10 H150.
    assert (Hd : (target_interval <= d)%Q).
    { unfold target_interval. rewrite H10, H150. discriminate. }
    unfold state_after. rewrite (Hbehind Hd), H10. split; reflexivity.
Qed.

(** ** Operations that respect a relation between states *)

Section Respects.

Variable R : CameraStream -> CameraStream -> Prop.
Hypothesis R_refl : forall s, R s s.
Hypothesis R_trans : forall s1 s2 s3, R s1 s2 -> R s2 s3 -> R s1 s3.

Lemma respects_ret {A} (a : A) : respects R (ret a).
Proof. intros s. apply R_refl. Qed.

Lemma respects_get : respects R get.
Proof. intros s. apply R_refl. Qed.

Lemma respects_emit e : respects R (emit e).
Proof. intros s. apply R_refl. Qed.

Lemma respects_call {A} (r : result A) : respects R (call r).
Proof. intros s. apply R_refl. Qed.

Lemma respects_modify f : (forall s, R s (f s)) -> respects R (modify f).
Proof. intros H s. apply H. Qed.

Lemma respects_bind {A B} (m : M A) (f : A -> M B) :
  respects R m -> (forall a, respects R (f a)) -> respects R (bind m f).
Proof.
  intros Hm Hf s. specialize (Hm s). unfold state_after, bind in *.
  destruct (m s) as [[[a|e] s1] ev1]; simpl in *; [|exact Hm].
  specialize (Hf a s1). unfold state_after in Hf.
  destruct (f a s1) as [[r s2] ev2]; simpl in *.
  eapply R_trans; eauto.
Qed.

Lemma respects_try_except {A} (m : M A) (h : string -> M A) :
  respects R m -> (forall w, respects R (h w)) ->
  respects R (try_except_Exception m h).
Proof.
  intros Hm Hh s. specialize (Hm s).
  unfold state_after, try_except_Exception in *.
  destruct (m s) as [[[a|[w|w]] s1] ev1]; simpl in *; try exact Hm.
  specialize (Hh w s1). unfold state_after in Hh.
  destruct (h w s1) as [[r s2] ev2]; simpl in *.
  eapply R_trans; eauto.
Qed.

Lemma respects_try_finally m fin :
  respects R m -> respects R fin -> respects R (try_finally m fin).
Proof.
  intros Hm Hf s. specialize (Hm s). unfold state_after, try_finally in *.
  destruct (m s) as [[r s1] ev1]; simpl in *.
  specialize (Hf s1). unfold state_after in Hf.
  destruct r as [[|]|e]; simpl; try exact Hm;
    destruct (fin s1) as [[[u|e'] s2] ev2]; simpl in *;
    eapply R_trans; eauto.
Qed.

(** Walks down a monadic term; assignments are discharged from the
    hypotheses that say which attributes [R] lets change. *)
Ltac walk :=
  repeat first
    [ solve [auto]
    | apply respects_ret | apply respects_get | apply respects_emit
    | apply respects_call
    | apply respects_modify; intros; cbv beta; solve [auto]
    | apply respects_bind
    | apply respects_try_except
    | progress intros
    | match goal with
      | |- respects R (match ?x with _ => _ end) => destruct x
      | |- respects R (if ?x then _ else _) => destruct x
      end ].

Lemma respects_logger l : respects R (logger l).
Proof. unfold logger. walk. Qed.

Lemma respects_time_sleep d : respects R (time_sleep d).
Proof. unfold time_sleep. walk. Qed.

Lemma respects_get_frame : respects R get_frame.
Proof. unfold get_frame, with_lock. walk. Qed.

Lemma respects_get_stats now : respects R (get_stats now).
Proof. unfold get_stats. walk. Qed.

Section Assignments.

(** Which attributes may be assigned without leaving [R]. *)
Hypothesis R_frame : forall v s, R s (set_frame v s).
Hypothesis R_frame_count : forall v s, R s (set_frame_count v s).
Hypothesis R_last_frame_time : forall v s, R s (set_last_frame_time v s).

Lemma respects_publish jpeg now : respects R (publish jpeg now).
Proof. unfold publish, with_lock. walk. Qed.

Lemma respects_capture_and_publish i :
  respects R (capture_and_publish jpeg_encode i).
Proof.
  unfold capture_and_publish. pose proof respects_publish. walk.
Qed.

Lemma respects_placeholder :
  respects R (_create_placeholder_frame jpeg_encode).
Proof.
  unfold _create_placeholder_frame, with_lock.
  pose proof respects_logger. walk.
Qed.

(** The pacing code is the only place that assigns [fps]. *)
Hypothesis R_pacing : forall d, respects R (adaptive_fps d).

Lemma respects_iteration i : respects R (iteration jpeg_encode i).
Proof.
  unfold iteration.
  pose proof respects_capture_and_publish.
  pose proof respects_logger. pose proof respects_time_sleep. walk.
Qed.

Hypothesis R_running : forall v s, R s (set_running v s).

Lemma respects_stop : respects R stop.
Proof. unfold stop. walk. Qed.

Lemma respects_while_running ins :
  respects R (while_running jpeg_encode ins).
Proof.
  induction ins as [|i rest IH]; intros s; unfold state_after; simpl.
  - destruct (running s); apply R_refl.
  - destruct (running s); [|apply R_refl].
    apply (respects_bind (iteration jpeg_encode i));
      [apply respects_iteration|].
    intros _. apply respects_bind; [|intros _; exact IH].
    destruct (stop_called i); [apply respects_stop | apply respects_ret].
Qed.

Hypothesis R_picam : forall v s, R s (set_picam v s).

Lemma respects_initialize_camera ii : respects R (initialize_camera ii).
Proof. unfold initialize_camera. pose proof respects_logger. walk. Qed.

Lemma respects_release : respects R release.
Proof. unfold release. pose proof respects_logger. walk. Qed.

Lemma respects_capture_loop ii ins :
  respects R (capture_loop jpeg_encode ii ins).
Proof.
  unfold capture_loop.
  apply respects_bind; [apply respects_modify; auto|]. intros _.
  apply respects_bind; [apply respects_initialize_camera|]. intros ok.
  destruct ok; simpl.
  - apply respects_try_finally;
      [apply respects_while_running | apply respects_release].
  - pose proof respects_placeholder. walk.
Qed.

End Assignments.

Lemma respects_generate_mjpeg close pc :
  (forall v s, R s (set_clients v s)) ->
  respects R (generate_mjpeg close pc).
Proof.
  intros R_clients. unfold generate_mjpeg.
  pose proof respects_logger. pose proof respects_time_sleep.
  pose proof respects_get_frame. destruct pc; walk.
Qed.

End Respects.

(** ** The rate only goes down, and stays in range *)

Lemma ratchet_refl s : ratchet s s.
Proof. unfold ratchet. split; [lia|auto]. Qed.

Lemma ratchet_trans s1 s2 s3 : ratchet s1 s2 -> ratchet s2 s3 -> ratchet s1 s3.
Proof. unfold ratchet. intros [A B] [C D]. split; [lia|auto]. Qed.

Lemma ratchet_same_fps s s' : fps s' = fps s -> ratchet s s'.
Proof. unfold ratchet. intros ->. split; [lia|auto]. Qed.

(** The one place that assigns [self.fps]. *)
Lemma ratchet_adaptive_fps d : respects ratchet (adaptive_fps d).
Proof.
  intros s. unfold state_after, adaptive_fps. unmonad.
  destruct (fps s =? 0); [apply ratchet_refl|].
  destruct (Qlt_bool 0 (py_max 0 (1 / inject_Z (fps s) - d)));
    [apply ratchet_refl|].
  destruct (fps s >? MIN_FPS) eqn:G; simpl; [|apply ratchet_refl].
  unfold ratchet; simpl. unfold MIN_FPS in *. lia.
Qed.

Lemma ratchet_run_op op s : ratchet s (run_op jpeg_encode op s).
Proof.
  pose proof ratchet_refl as Hr. pose proof ratchet_trans as Ht.
  pose proof ratchet_adaptive_fps as Hp.
  assert (Hfps : forall f, (forall s, fps (f s) = fps s) ->
                           forall s, ratchet s (f s))
    by (intros f Hf s0; apply ratchet_same_fps, Hf).
  destruct op; simpl.
  - apply respects_capture_loop; auto; intros v; apply Hfps; reflexivity.
  - apply respects_iteration; auto; intros v; apply Hfps; reflexivity.
  - apply respects_placeholder; auto; intros v; apply Hfps; reflexivity.
  - apply respects_release; auto; intros v; apply Hfps; reflexivity.
  - apply respects_stop; auto; intros v; apply Hfps; reflexivity.
  - apply respects_generate_mjpeg; auto; intros v; apply Hfps; reflexivity.
  - apply respects_get_frame; auto.
  - apply respects_get_stats; auto.
Qed.

Lemma ratchet_run_ops ops s : ratchet s (run_ops jpeg_encode ops s).
Proof.
  revert s. induction ops as [|op ops IH]; intros s; simpl.
  - apply ratchet_refl.
  - eapply ratchet_trans; [apply ratchet_run_op | apply IH].
Qed.

(** C3. The rate starts at [TARGET_FPS]; in every state a feed can reach,
    by any sequence of the operations of the module, it lies between
    [MIN_FPS] and [TARGET_FPS]; and no operation ever raises it. *)
Theorem rate_ratchet
    (name : string) (index : Z) (now : Q) (ops : list feed_op) :
  let s0 := init name index now in
  let s := run_ops jpeg_encode ops s0 in
  fps s0 = TARGET_FPS /\
  MIN_FPS <= fps s <= TARGET_FPS /\
  (forall op, fps (run_op jpeg_encode op s) <= fps s) /\
  (forall more, fps (run_ops jpeg_encode more s) <= fps s).
Proof.
  intros s0 s. split; [reflexivity|].
  destruct (ratchet_run_ops ops s0) as [Hle Hmin]. fold s in Hle, Hmin.
  split; [|split].
  - split; [apply Hmin; discriminate | exact Hle].
  - intros op. apply ratchet_run_op.
  - intros more. apply ratchet_run_ops.
Qed.

(** ** The frame slot *)

Lemma publish_all_last prev jpeg t s0 :
  publish_all (prev ++ [(jpeg, t)]) s0 =
    set_last_frame_time t
      (set_frame_count (frame_count s0 + Z.of_nat (List.length prev) + 1)
         (set_frame (Some jpeg) s0)).
Proof.
  revert s0. induction prev as [|[j' t'] prev IH]; intros s0.
  - unfold publish_all, state_after, publish. unmonad.
    unfold set_last_frame_time, set_frame_count, set_frame; simpl.
    f_equal. lia.
  - change (publish_all (((j', t') :: prev) ++ [(jpeg, t)]) s0)
      with (publish_all (prev ++ [(jpeg, t)])
              (state_after (publish j' t') s0)).
    rewrite IH. unfold state_after, publish. unmonad.
    unfold set_last_frame_time, set_frame_count, set_frame; simpl.
    f_equal. lia.
Qed.

(** C4. The frame slot: [get_frame] changes nothing and returns the stored
    frame; on a fresh feed it returns [None] exactly when nothing has been
    published; after N publishes it returns the bytes of the N-th one, and
    the state is the initial one with the frame, the frame counter (N) and
    the timestamp of that last publish put in -- nothing of an earlier
    frame remains. *)
Theorem frame_cache_contract
    (name : string) (index : Z) (now : Q) (pubs : list (bytes * Q)) :
  let s0 := init name index now in
  let s := publish_all pubs s0 in
  get_frame s = (Ok (frame s), s, []) /\
  (result_of get_frame s = Ok None <-> pubs = []) /\
  (forall prev jpeg t, pubs = prev ++ [(jpeg, t)] ->
     result_of get_frame s = Ok (Some jpeg) /\
     last_frame_time s = t /\
     s = set_last_frame_time t
           (set_frame_count (Z.of_nat (List.length pubs))
              (set_frame (Some jpeg) s0))).
Proof.
  intros s0 s. split; [reflexivity|]. split.
  - split.
    + intros H. destruct pubs as [|p pubs'] using rev_ind; [reflexivity|].
      exfalso. destruct p as [j t]. subst s.
      rewrite publish_all_last in H. discriminate H.
    + intros ->. reflexivity.
  - intros prev jpeg t ->. subst s. rewrite publish_all_last.
    repeat split. simpl frame_count.
    rewrite length_app. simpl List.length.
    replace (0 + Z.of_nat (List.length prev) + 1)
      with (Z.of_nat (List.length prev + 1)) by lia.
    reflexivity.
Qed.

(** ** Statistics *)



Lemma round_half_even_comp (q q' : Q) :
  (q == q')%Q -> round_half_even q = round_half_even q'.
Proof.
  intros H. unfold round_half_even.
  rewrite (Qfloor_comp _ _ H).
  assert (E : (q - inject_Z (Qfloor q') ?= 1 # 2)%Q =
              (q' - inject_Z (Qfloor q') ?= 1 # 2)%Q)
    by (now rewrite H).
  now rewrite E.
Qed.

Lemma round_half_even_Z (z : Z) : round_half_even (inject_Z z) = z.
Proof.
  unfold round_half_even. rewrite Qfloor_Z.
  assert (E : (inject_Z z - inject_Z z ?= 1 # 2)%Q = Lt).
  { apply Qlt_alt. unfold Qminus. rewrite Qplus_opp_r. reflexivity. }
  now rewrite E.
Qed.




Lemma floor_log2_int (p : positive) : floor_log2 p 1 = Z.log2 (Z.pos p).
Proof.
  unfold floor_log2. change (Z.log2 (Z.pos 1)) with 0. rewrite Z.sub_0_r.
  pose proof (Z.log2_nonneg (Z.pos p)) as H0.
  pose proof (Z.log2_spec (Z.pos p) eq_refl) as [H1 _].
  rewrite (Z.max_l 0 (- Z.log2 (Z.pos p))) by lia.
  rewrite (Z.max_r 0 (Z.log2 (Z.pos p))) by lia.
  destruct (Z.ltb_spec (Z.pos p * 2 ^ 0) (1 * 2 ^ Z.log2 (Z.pos p)))
    as [C|C]; [|reflexivity].
  rewrite Z.pow_0_r, Z.mul_1_r, Z.mul_1_l in C. lia.
Qed.

Lemma Qred_inject_Z (z : Z) : Qred (inject_Z z) = inject_Z z.
Proof.
  pose proof (Qred_correct (inject_Z z)) as C.
  pose proof (gcd_Qred (inject_Z z)) as G.
  destruct (Qred (inject_Z z)) as [a b]. unfold Qeq in C. simpl in C, G.
  rewrite Z.mul_1_r in C. subst a.
  rewrite Z.gcd_comm, (Z.mul_comm z), Z.gcd_mul_diag_l in G by lia.
  unfold inject_Z. injection G as ->. now rewrite Z.mul_1_r.
Qed.

(** A count below [2 ^ 53] is a float: its conversion is exact. *)
Lemma nearest_int (n : Z) :
  0 <= n < 2 ^ 53 -> nearest (inject_Z n) = Finite (inject_Z n).
Proof.
  intros [H0 H53]. unfold nearest.
  destruct (Qcompare_spec (inject_Z n) 0) as [E|L|G].
  - f_equal. unfold Qeq in E. simpl in E. unfold inject_Z.
    f_equal. lia.
  - exfalso. unfold Qlt in L. simpl in L. lia.
  - assert (Hn : 0 < n) by (unfold Qlt in G; simpl in G; lia).
    destruct n as [|p|p]; try lia.
    unfold nearest_pos, rounded, exponent. simpl Qnum. simpl Qden.
    change (Z.to_pos (Z.pos p)) with p. rewrite floor_log2_int.
    set (l := Z.log2 (Z.pos p)).
    assert (Hl : 0 <= l <= 52).
    { split; [apply Z.log2_nonneg|].
      assert (l < 53) by (apply Z.log2_lt_pow2; lia). lia. }
    rewrite (Z.max_l (l - 52) (-1074)) by lia.
    set (k := 52 - l).
    replace (l - 52) with (- k) by (unfold k; lia).
    assert (Hk : 0 <= k) by (unfold k; lia).
    assert (P : (0 < 2 ^ k)%Q) by (apply Qpower_0_lt; reflexivity).
    assert (Ek : (inject_Z (2 ^ k) == 2 ^ k)%Q)
      by (rewrite Zpower_Qpower by exact Hk; reflexivity).
    assert (Em : (inject_Z (Z.pos p) / 2 ^ (- k) ==
                  inject_Z (Z.pos p * 2 ^ k))%Q).
    { rewrite Qpower_opp, inject_Z_mult, Ek. field. lra. }
    rewrite (round_half_even_comp _ _ Em), round_half_even_Z.
    assert (Ex : (inject_Z (Z.pos p * 2 ^ k) * 2 ^ (- k) ==
                  inject_Z (Z.pos p))%Q).
    { rewrite Qpower_opp, inject_Z_mult, Ek. field. lra. }
    rewrite (Qred_complete _ _ Ex), Qred_inject_Z.
    assert (Eo : Qle_bool (2 ^ 1024) (inject_Z (Z.pos p)) = false).
    { destruct (Qle_bool (2 ^ 1024) (inject_Z (Z.pos p))) eqn:C;
        [|reflexivity].
      apply Qle_bool_iff in C.
      assert (E1024 : (inject_Z (2 ^ 1024) == 2 ^ 1024)%Q)
        by (rewrite Zpower_Qpower by lia; reflexivity).
      rewrite <- E1024 in C. rewrite <- Zle_Qle in C.
      assert (2 ^ 53 < 2 ^ 1024) by (apply Z.pow_lt_mono_r; lia).
      lia. }
    rewrite Eo. reflexivity.
Qed.

(** *** Rounding to the nearest float is monotone *)


















(** With a count that is a float, the quotient of [get_stats] is defined
    whenever the guard [elapsed > 0] lets it be computed. *)
Lemma int_truediv_guarded (n : Z) (y : float) :
  0 <= n < 2 ^ 53 -> float_gt_0 y = true ->
  int_truediv n y =
    Ok (match y with
        | Finite e => nearest (inject_Z n / e)
        | Infinity _ => Finite 0
        end).
Proof.
  intros Hn Hy. unfold int_truediv, int_to_float.
  rewrite (nearest_int n Hn). destruct y as [e|neg]; [|reflexivity].
  simpl in Hy. apply Qlt_bool_iff in Hy.
  destruct (Qeq_bool e 0) eqn:Z0; [|reflexivity].
  apply Qeq_bool_iff in Z0. rewrite Z0 in Hy. discriminate Hy.
Qed.

(** What [get_stats] returns, entry by entry. *)
Lemma get_stats_returns (now : Q) (s : CameraStream) :
  0 <= frame_count s < 2 ^ 53 ->
  exists actual_fps : number,
    get_stats now s =
      (Ok [ ("camera"%string, VStr (camera_name s));
            ("clients"%string, VInt (clients s));
            ("target_fps"%string, VInt (fps s));
            ("actual_fps"%string, py_round actual_fps 2);
            ("frames_captured"%string, VInt (frame_count s));
            ("running"%string, VBool (running s));
            ("has_camera"%string,
              VBool (match picam s with
                     | Some _ => true
                     | None => false
                     end)) ], s, []) /\
    actual_fps =
      match float_sub now (start_time s) with
      | Finite e =>
          if Qlt_bool 0 e then Float (nearest (inject_Z (frame_count s) / e))
          else Int 0
      | Infinity negative => if negative then Int 0 else Float (Finite 0)
      end.
Proof.
  intros Hn. unfold get_stats. unfold bind at 1. unfold get at 1.
  unfold bind at 1.
  destruct (float_gt_0 (float_sub now (start_time s))) eqn:G.
  - unfold bind at 1. unfold call at 1.
    rewrite (int_truediv_guarded _ _ Hn G).
    destruct (float_sub now (start_time s)) as [e|neg]; simpl in G.
    + rewrite G. eexists. split; reflexivity.
    + destruct neg; [discriminate G|]. eexists. split; reflexivity.
  - destruct (float_sub now (start_time s)) as [e|neg]; simpl in G.
    + rewrite G. eexists. split; reflexivity.
    + destruct neg; [|discriminate G]. eexists. split; reflexivity.
Qed.


(** ** Viewers *)

Lemma same_but_clients_refl s : same_but_clients s s.
Proof. reflexivity. Qed.

Lemma same_but_clients_trans s1 s2 s3 :
  same_but_clients s1 s2 -> same_but_clients s2 s3 -> same_but_clients s1 s3.
Proof. unfold same_but_clients. congruence. Qed.

(** The generator, position by position. *)
Lemma generate_mjpeg_Created close s :
  generate_mjpeg close Created s = (Ok (Connecting (clients s)), s, []).
Proof. reflexivity. Qed.

Lemma generate_mjpeg_Connecting close tmp s :
  generate_mjpeg close (Connecting tmp) s =
    (Ok Polling, set_clients (tmp + 1) s, [Log INFO (camera_name s)]).
Proof. reflexivity. Qed.

Lemma generate_mjpeg_Polling close s :
  generate_mjpeg close Polling s =
    match frame s with
    | Some f => (Ok Yielded, s, [Yield (multipart f)])
    | None => (Ok Polling, s, [Sleep (1 # 100)])
    end.
Proof.
  unfold generate_mjpeg, get_frame, with_lock. unmonad.
  destruct (frame s); reflexivity.
Qed.

Lemma generate_mjpeg_Yielded close s :
  generate_mjpeg close Yielded s =
    if close || (fps s =? 0) then (Ok (Leaving (clients s)), s, [])
    else (Ok Polling, s, [Sleep (1 / inject_Z (fps s))]).
Proof.
  unfold generate_mjpeg. unmonad.
  destruct (close || (fps s =? 0)); reflexivity.
Qed.

Lemma generate_mjpeg_Leaving close tmp s :
  generate_mjpeg close (Leaving tmp) s =
    (Ok Finished, set_clients (tmp - 1) s, [Log INFO (camera_name s)]).
Proof. reflexivity. Qed.

Lemma generate_mjpeg_Finished close s :
  generate_mjpeg close Finished s = (Ok Finished, s, []).
Proof. reflexivity. Qed.

(** A step of a generator assigns [clients] and nothing else. *)
Lemma generate_mjpeg_same_but_clients close pc :
  respects same_but_clients (generate_mjpeg close pc).
Proof.
  apply respects_generate_mjpeg.
  - apply same_but_clients_refl.
  - apply same_but_clients_trans.
  - intros v s. reflexivity.
Qed.

Lemma thread_step_same_but_clients who close s vs :
  same_but_clients s (fst (thread_step who close (s, vs))).
Proof.
  unfold thread_step. destruct (nth_error vs who) as [pc|]; [|reflexivity].
  pose proof (generate_mjpeg_same_but_clients close pc s) as H.
  unfold state_after in H.
  destruct (generate_mjpeg close pc s) as [[[pc'|e] s'] ev]; exact H.
Qed.

Lemma run_schedule_same_but_clients sched s vs :
  same_but_clients s (fst (run_schedule sched (s, vs))).
Proof.
  revert s vs. induction sched as [|[who close] sched IH]; intros s vs.
  - reflexivity.
  - change (run_schedule ((who, close) :: sched) (s, vs))
      with (run_schedule sched (thread_step who close (s, vs))).
    pose proof (thread_step_same_but_clients who close s vs) as H.
    destruct (thread_step who close (s, vs)) as [s1 vs1]. simpl in H.
    eapply same_but_clients_trans; [exact H | apply IH].
Qed.

Lemma same_but_clients_fields s s' :
  same_but_clients s s' ->
  frame s' = frame s /\ picam s' = picam s /\ running s' = running s /\
  fps s' = fps s /\ frame_count s' = frame_count s.
Proof.
  unfold same_but_clients. intros H.
  repeat split;
    [ apply (f_equal frame) in H | apply (f_equal picam) in H
    | apply (f_equal running) in H | apply (f_equal fps) in H
    | apply (f_equal frame_count) in H ]; exact H.
Qed.

(** With a frame in the slot, each round of the loop yields that frame and
    sleeps for the current interval. *)
Lemma generator_rounds s f n :
  frame s = Some f -> fps s <> 0 ->
  run_generator (repeat false (n * 2)) Polling s =
    (Ok Polling, s, rounds s f n).
Proof.
  intros Hf Hfps. induction n as [|n IH]; [reflexivity|].
  simpl repeat. simpl run_generator. unfold bind at 1.
  unfold generate_mjpeg at 1, get_frame, with_lock. unmonad. rewrite Hf.
  simpl. apply Z.eqb_neq in Hfps. rewrite Hfps. simpl.
  rewrite IH. reflexivity.
Qed.

Lemma chunks_rounds s f n : chunks (rounds s f n) = repeat (multipart f) n.
Proof.
  induction n as [|n IH]; [reflexivity|].
  unfold rounds in *. simpl. now rewrite IH.
Qed.

(** A viewer that connects to a feed holding a frame: one increment of
    [clients], then the frame again and again. *)
Lemma generator_connects s f n :
  frame s = Some f -> fps s <> 0 ->
  run_generator (repeat false (2 + n * 2)) Created s =
    (Ok Polling, set_clients (clients s + 1) s,
     Log INFO (camera_name s) :: rounds s f n).
Proof.
  intros Hf Hfps. simpl repeat. simpl run_generator.
  unfold bind at 1. unfold generate_mjpeg at 1. unmonad.
  rewrite (generator_rounds (set_clients (clients s + 1) s) f n Hf Hfps).
  reflexivity.
Qed.

(** ** Start-up without a camera *)

Lemma initialize_camera_fails ii s :
  acquisition_fails ii ->
  initialize_camera ii s =
    (Ok false, set_picam None s, [Log ERROR (camera_name s)]).
Proof.
  unfold initialize_camera. unmonad.
  intros [[w ->] | [-> [w ->]]]; reflexivity.
Qed.

(** C2 (as the code has it). When the camera cannot be initialised and the
    placeholder encodes, [capture_loop] stores exactly that placeholder -- a
    grey image of size [RESOLUTION] encoded at quality 50, below
    [JPEG_QUALITY] -- and returns without entering the loop, whatever the
    later inputs.  [running] stays as the first line set it (true) and
    [frame_count] stays 0.  From then on, whatever viewers do, [get_stats]
    reports has_camera false, running true and frames_captured 0, and a
    viewer is handed the placeholder in every round, as many rounds as one
    asks for. *)
Theorem degraded_feed
    (name : string) (index : Z) (t0 : Q)
    (ii : InitInput) (ins : list CycleInput) (placeholder : bytes)
    (Hfail : acquisition_fails ii)
    (Henc : jpeg_encode (Image_new RESOLUTION (50, 50, 50)) 50
            = Ok placeholder) :
  let s0 := init name index t0 in
  let s' := set_frame (Some placeholder) (set_running true s0) in
  50 < JPEG_QUALITY /\
  capture_loop jpeg_encode ii ins s0 =
    (Ok Exited, s', [Log ERROR name; Log INFO name]) /\
  (forall now sched viewers,
     let s'' := fst (run_schedule sched (s', viewers)) in
     same_but_clients s' s'' /\
     exists d,
       get_stats now s'' = (Ok d, s'', []) /\
       dict_get "has_camera" d = Some (VBool false) /\
       dict_get "running" d = Some (VBool true) /\
       dict_get "frames_captured" d = Some (VInt 0)) /\
  (forall n,
     exists ev,
       run_generator (repeat false (2 + n * 2)) Created s' =
         (Ok Polling, set_clients 1 s', ev) /\
       chunks ev = repeat (multipart placeholder) n).
Proof.
  intros s0 s'. split; [reflexivity|]. split; [|split].
  - unfold capture_loop. unfold bind at 1. unfold modify at 1.
    unfold bind at 1. rewrite (initialize_camera_fails _ _ Hfail).
    unfold _create_placeholder_frame. unmonad. rewrite Henc. reflexivity.
  - intros now sched viewers s''.
    pose proof (run_schedule_same_but_clients sched s' viewers) as H.
    fold s'' in H. split; [exact H|].
    destruct (same_but_clients_fields _ _ H) as (_ & Hp & Hr & _ & Hc).
    assert (Hn : 0 <= frame_count s'' < 2 ^ 53)
      by (rewrite Hc; split; [apply Z.le_refl | reflexivity]).
    destruct (get_stats_returns now s'' Hn) as (a & Hd & _).
    eexists. split; [exact Hd|]. simpl.
    rewrite Hp, Hr, Hc. repeat split.
  - intros n. eexists. split.
    + apply (generator_connects s' placeholder n); [reflexivity|discriminate].
    + change (chunks (Log INFO (camera_name s') :: rounds s' placeholder n))
        with (chunks (rounds s' placeholder n)).
      apply chunks_rounds.
Qed.

(** ** Leaving the capture loop *)








(** ** The client counter *)

(** One viewer on its own: connecting adds one to [clients], once; closing
    the generator at a [yield] takes one off, once. *)
Lemma viewer_lifecycle s f :
  frame s = Some f -> fps s <> 0 ->
  state_after (run_generator [false; false] Created) s =
    set_clients (clients s + 1) s /\
  state_after (run_generator [false; false; false; true; true] Created) s =
    set_clients (clients s + 1 - 1) s.
Proof.
  intros Hf Hfps. unfold state_after. simpl run_generator.
  unfold generate_mjpeg, get_frame, with_lock. unmonad.
  rewrite Hf. simpl. auto.
Qed.

(** *** With atomic updates the counter counts the connected viewers *)

Lemma nth_error_set_nth {A} (l : list A) n x y :
  nth_error l n = Some y -> nth_error (set_nth n x l) n = Some x.
Proof.
  revert n. induction l as [|a l IH]; intros [|n]; simpl; try discriminate;
    auto.
Qed.

Lemma set_nth_twice {A} (l : list A) n x y :
  set_nth n y (set_nth n x l) = set_nth n y l.
Proof.
  revert n. induction l as [|a l IH]; intros [|n]; simpl; auto.
  now rewrite IH.
Qed.

Lemma count_connected_set_nth vs n pc pc' :
  nth_error vs n = Some pc ->
  count_connected (set_nth n pc' vs) =
    count_connected vs - (if connected pc then 1 else 0)
                       + (if connected pc' then 1 else 0).
Proof.
  unfold count_connected. revert n.
  induction vs as [|v vs IH]; intros [|n]; simpl; try discriminate.
  - intros H; inversion H; subst.
    destruct (connected pc), (connected pc'); simpl List.length; lia.
  - intros H. specialize (IH n H).
    destruct (connected v); simpl List.length; lia.
Qed.

Lemma Forall_set_nth {A} (P : A -> Prop) (l : list A) n x :
  Forall P l -> P x -> Forall P (set_nth n x l).
Proof.
  intros Hl Hx. revert n.
  induction Hl as [|a l Ha Hl IH]; intros [|n]; simpl; auto.
Qed.

Lemma thread_step_at who close s vs pc :
  nth_error vs who = Some pc ->
  thread_step who close (s, vs) =
    match generate_mjpeg close pc s with
    | (Ok pc', s', _) => (s', set_nth who pc' vs)
    | (Raise _, s', _) => (s', vs)
    end.
Proof. intros E. unfold thread_step. now rewrite E. Qed.

Lemma atomic_step_counter_exact who close st :
  counter_exact st -> counter_exact (atomic_step who close st).
Proof.
  destruct st as [s vs]. unfold counter_exact. cbn [fst snd].
  intros [Hall Hc]. unfold atomic_step.
  destruct (nth_error vs who) as [pc|] eqn:E.
  2:{ unfold thread_step. rewrite E. cbn [fst snd]. rewrite E. auto. }
  assert (Hpc : mid_update pc = false)
    by (rewrite Forall_forall in Hall; eapply Hall, nth_error_In, E).
  pose proof (count_connected_set_nth vs who pc) as Hcount.
  pose proof (fun x => nth_error_set_nth vs who x pc E) as Hnth.
  rewrite (thread_step_at _ _ _ _ _ E).
  destruct pc; try discriminate Hpc.
  - (* Created: read, then write *)
    rewrite generate_mjpeg_Created. cbn [fst snd]. rewrite Hnth.
    cbn [mid_update].
    rewrite (thread_step_at _ _ _ _ _ (Hnth _)), generate_mjpeg_Connecting.
    cbn [fst snd]. rewrite set_nth_twice. split.
    + apply Forall_set_nth; auto.
    + rewrite (Hcount Polling E). simpl. lia.
  - (* Polling *)
    rewrite generate_mjpeg_Polling.
    destruct (frame s) as [f|]; cbn [fst snd]; rewrite Hnth;
      cbn [mid_update fst snd]; split;
      try (apply Forall_set_nth; auto);
      rewrite (Hcount _ E); simpl; lia.
  - (* Yielded *)
    rewrite generate_mjpeg_Yielded.
    destruct (close || (fps s =? 0)); cbn [fst snd]; rewrite Hnth;
      cbn [mid_update].
    + rewrite (thread_step_at _ _ _ _ _ (Hnth _)), generate_mjpeg_Leaving.
      cbn [fst snd]. rewrite set_nth_twice. split.
      * apply Forall_set_nth; auto.
      * rewrite (Hcount Finished E). simpl. lia.
    + cbn [fst snd]. split; [apply Forall_set_nth; auto|].
      rewrite (Hcount Polling E). simpl. lia.
  - (* Finished *)
    rewrite generate_mjpeg_Finished. cbn [fst snd]. rewrite Hnth.
    cbn [mid_update fst snd]. split.
    + apply Forall_set_nth; auto.
    + rewrite (Hcount Finished E). simpl. lia.
Qed.

(** Were every update atomic, the specification's count would hold: from a
    feed without viewers, after any schedule, [clients] is the number of
    connected viewers -- connects minus disconnects -- and is not
    negative. *)
Lemma atomic_counter_counts_connected sched s n :
  clients s = 0 ->
  let st := run_atomic sched (s, repeat Created n) in
  clients (fst st) = count_connected (snd st) /\ 0 <= clients (fst st).
Proof.
  intros H0 st.
  assert (Hinv : counter_exact st).
  { subst st. assert (Hstart : counter_exact (s, repeat Created n)).
    { split; simpl.
      - apply Forall_forall. intros pc Hin.
        apply repeat_spec in Hin. now subst.
      - rewrite H0. unfold count_connected.
        induction n; simpl; auto. }
    revert Hstart. generalize (s, repeat Created n).
    induction sched as [|[who close] sched IH]; intros st0 Hst; simpl; auto.
    apply IH. apply atomic_step_counter_exact. exact Hst. }
  destruct Hinv as [_ Hc]. split; [exact Hc|].
  rewrite Hc. unfold count_connected. lia.
Qed.

(** A step of one viewer leaves the position of every other viewer as it
    was. *)
Lemma thread_step_others who close s vs other :
  other <> who ->
  nth_error (snd (thread_step who close (s, vs))) other = nth_error vs other.
Proof.
  intros Hne. unfold thread_step.
  destruct (nth_error vs who) as [pc|]; [|reflexivity].
  destruct (generate_mjpeg close pc s) as [[[pc'|e] s1] ev1];
    [|reflexivity].
  simpl. revert who other Hne.
  induction vs as [|v vs IH]; intros [|who] [|other] Hne; simpl; auto;
    try congruence.
Qed.

(** * Further properties of the camera server *)

(** ** What a computation emits *)

Section Emits.

Variable P : event -> Prop.

Lemma emits_ret {A} (a : A) : emits P (ret a).
Proof. intros s. constructor. Qed.

Lemma emits_get : emits P get.
Proof. intros s. constructor. Qed.

Lemma emits_modify f : emits P (modify f).
Proof. intros s. constructor. Qed.

Lemma emits_call {A} (r : result A) : emits P (call r).
Proof. intros s. constructor. Qed.

Lemma emits_emit e : P e -> emits P (emit e).
Proof. intros H s. repeat constructor. exact H. Qed.

Lemma emits_bind {A B} (m : M A) (f : A -> M B) :
  emits P m -> (forall a, emits P (f a)) -> emits P (bind m f).
Proof.
  intros Hm Hf s. specialize (Hm s). unfold bind.
  destruct (m s) as [[[a|e] s1] ev1]; simpl in *; [|exact Hm].
  specialize (Hf a s1). destruct (f a s1) as [[r s2] ev2]; simpl in *.
  apply Forall_app. auto.
Qed.

Lemma emits_try_except {A} (m : M A) (h : string -> M A) :
  emits P m -> (forall w, emits P (h w)) -> emits P (try_except_Exception m h).
Proof.
  intros Hm Hh s. specialize (Hm s). unfold try_except_Exception.
  destruct (m s) as [[[a|[w|w]] s1] ev1]; simpl in *; try exact Hm.
  specialize (Hh w s1). destruct (h w s1) as [[r s2] ev2]; simpl in *.
  apply Forall_app. auto.
Qed.

Lemma emits_try_finally m fin :
  emits P m -> emits P fin -> emits P (try_finally m fin).
Proof.
  intros Hm Hf s. specialize (Hm s). unfold try_finally.
  destruct (m s) as [[r s1] ev1]; simpl in *. specialize (Hf s1).
  destruct r as [[|]|e]; simpl; try exact Hm;
    destruct (fin s1) as [[[u|e'] s2] ev2]; simpl in *;
    apply Forall_app; auto.
Qed.

Lemma emits_logger l : (forall name, P (Log l name)) -> emits P (logger l).
Proof.
  intros H. unfold logger. apply emits_bind; [apply emits_get|].
  intros s. apply emits_emit, H.
Qed.

End Emits.

(** ** Sleeping *)

Lemma positive_interval (z : Z) : 0 < z -> (0 < 1 / inject_Z z)%Q.
Proof.
  intros H. apply Qlt_shift_div_l.
  - unfold Qlt, inject_Z. simpl. lia.
  - reflexivity.
Qed.

Lemma adaptive_fps_sleeps d : emits positive_sleep (adaptive_fps d).
Proof.
  intros s. unfold adaptive_fps. unmonad.
  destruct (fps s =? 0); [constructor|].
  destruct (Qlt_bool 0 (py_max 0 (1 / inject_Z (fps s) - d))) eqn:E.
  - apply Qlt_bool_iff in E. repeat constructor. exact E.
  - destruct (fps s >? MIN_FPS); simpl; repeat constructor.
Qed.

Lemma iteration_sleeps i : emits positive_sleep (iteration jpeg_encode i).
Proof.
  assert (L : forall l name, positive_sleep (Log l name)) by (intros; exact I).
  unfold iteration. apply emits_bind.
  - apply emits_try_except.
    + apply emits_bind; [|intros; apply emits_ret].
      unfold capture_and_publish, publish, with_lock.
      apply emits_bind; [apply emits_get|]. intros s.
      apply emits_bind; [destruct (picam s); apply emits_call|]. intros a.
      apply emits_bind; [apply emits_call|]. intros j.
      repeat (apply emits_bind; [apply emits_modify|]; intros _).
      apply emits_modify.
    + intros w. apply emits_bind; [apply emits_logger, L|]. intros _.
      apply emits_bind; [|intros; apply emits_ret].
      apply emits_emit. reflexivity.
  - intros [|]; [apply adaptive_fps_sleeps | apply emits_ret].
Qed.

Lemma while_running_sleeps ins :
  emits positive_sleep (while_running jpeg_encode ins).
Proof.
  induction ins as [|i rest IH]; intros s; simpl.
  - destruct (running s); constructor.
  - destruct (running s); [|constructor].
    apply (emits_bind positive_sleep (iteration jpeg_encode i));
      [apply iteration_sleeps|].
    intros _. apply emits_bind; [|intros _; exact IH].
    destruct (stop_called i); [apply emits_modify | apply emits_ret].
Qed.

Lemma capture_loop_sleeps ii ins :
  emits positive_sleep (capture_loop jpeg_encode ii ins).
Proof.
  assert (L : forall l name, positive_sleep (Log l name)) by (intros; exact I).
  unfold capture_loop. apply emits_bind; [apply emits_modify|]. intros _.
  apply emits_bind.
  - unfold initialize_camera. apply emits_try_except.
    + apply emits_bind; [apply emits_call|]. intros _.
      apply emits_bind; [apply emits_modify|]. intros _.
      apply emits_bind; [apply emits_call|]. intros _.
      apply emits_bind; [apply emits_modify|]. intros _.
      apply emits_bind; [apply emits_logger, L | intros; apply emits_ret].
    + intros w. apply emits_bind; [apply emits_logger, L|]. intros _.
      apply emits_bind; [apply emits_modify | intros; apply emits_ret].
  - intros [|]; simpl.
    + apply emits_try_finally; [apply while_running_sleeps|].
      unfold release. apply emits_bind; [apply emits_get|]. intros s.
      destruct (picam s); [|apply emits_ret].
      apply emits_bind; [apply emits_modify | intros; apply emits_logger, L].
    + apply emits_bind; [|intros; apply emits_ret].
      unfold _create_placeholder_frame, with_lock.
      apply emits_bind; [apply emits_call|]. intros data.
      apply emits_bind; [apply emits_modify | intros; apply emits_logger, L].
Qed.

Lemma generate_mjpeg_sleeps close pc s :
  0 < fps s -> Forall positive_sleep (snd (generate_mjpeg close pc s)).
Proof.
  intros H. destruct pc.
  - rewrite generate_mjpeg_Created. constructor.
  - rewrite generate_mjpeg_Connecting. repeat constructor.
  - rewrite generate_mjpeg_Polling. destruct (frame s); repeat constructor.
  - rewrite generate_mjpeg_Yielded.
    destruct (close || (fps s =? 0)); repeat constructor.
    apply positive_interval, H.
  - rewrite generate_mjpeg_Leaving. repeat constructor.
  - rewrite generate_mjpeg_Finished. constructor.
Qed.

(** Neither the capture loop nor a viewer ever hands [time.sleep] a zero or
    negative duration, whatever the clock, the camera and the encoder do;
    for the viewer this rests on the rate being positive. *)
Theorem sleeps_are_positive
    (ii : InitInput) (ins : list CycleInput) (closes : list bool)
    (pc : gen_pc) (s : CameraStream)
    (Hfps : 0 < fps s) :
  Forall positive_sleep (snd (capture_loop jpeg_encode ii ins s)) /\
  Forall positive_sleep (snd (run_generator closes pc s)).
Proof.
  split; [apply capture_loop_sleeps|].
  revert pc s Hfps. induction closes as [|c rest IH]; intros pc s Hfps.
  - constructor.
  - simpl run_generator. unfold bind.
    pose proof (generate_mjpeg_sleeps c pc s Hfps) as H1.
    pose proof (generate_mjpeg_same_but_clients c pc s) as H2.
    unfold state_after in H2.
    destruct (generate_mjpeg c pc s) as [[[pc'|e] s1] ev1]; simpl in *;
      [|exact H1].
    apply same_but_clients_fields in H2.
    destruct H2 as (_ & _ & _ & Hf & _).
    assert (Hfps1 : 0 < fps s1) by (rewrite Hf; exact Hfps).
    specialize (IH pc' s1 Hfps1).
    destruct (run_generator rest pc' s1) as [[r s2] ev2]; simpl in *.
    apply Forall_app; auto.
Qed.


(** ** A loop that cannot keep up *)

Lemma capture_and_publish_succeeds i s p a jpeg :
  picam s = Some p -> capture i = Ok a ->
  jpeg_encode (Image_fromarray a) JPEG_QUALITY = Ok jpeg ->
  capture_and_publish jpeg_encode i s =
    (Ok tt,
     set_last_frame_time (t_publish i)
       (set_frame_count (frame_count s + 1) (set_frame (Some jpeg) s)),
     []).
Proof.
  intros Hp Hc He. unfold capture_and_publish, publish. unmonad.
  rewrite Hp. simpl. rewrite Hc. simpl. rewrite He. reflexivity.
Qed.

(** After a published frame the iteration is the pacing code. *)
Lemma iteration_published i s s1 :
  capture_and_publish jpeg_encode i s = (Ok tt, s1, []) ->
  iteration jpeg_encode i s =
    adaptive_fps (t_after i - t_loop_start i) s1.
Proof.
  intros H. unfold iteration. unfold bind at 1. unfold try_except_Exception.
  unfold bind at 1. rewrite H. unfold ret at 1.
  destruct (adaptive_fps (t_after i - t_loop_start i) s1) as [[r s2] ev2].
  reflexivity.
Qed.

Lemma interval_le_longest (z : Z) :
  MIN_FPS <= z -> (1 / inject_Z z <= 1 / inject_Z MIN_FPS)%Q.
Proof.
  unfold MIN_FPS. intros H. destruct z as [|q|q]; try lia.
  unfold Qle, Qdiv, Qmult, Qinv. simpl. lia.
Qed.

(** When every cycle captures but takes at least [1 / MIN_FPS], the loop
    never sleeps, counts one frame per cycle and lowers the rate by one per
    cycle until it stands at [MIN_FPS], where it stays. *)
Theorem rate_falls_to_floor
    (ins : list CycleInput) (s : CameraStream) (p : Picamera2)
    (Hrun : running s = true) (Hcam : picam s = Some p)
    (Hmin : MIN_FPS <= fps s)
    (Hins : Forall (fun i => captures jpeg_encode i /\ behind i) ins) :
  exists s' ev,
    while_running jpeg_encode ins s = (Ok Looping, s', ev) /\
    fps s' = Z.max MIN_FPS (fps s - Z.of_nat (List.length ins)) /\
    frame_count s' = frame_count s + Z.of_nat (List.length ins) /\
    existsb is_sleep ev = false.
Proof.
  revert s Hrun Hcam Hmin.
  induction Hins as [|i rest [[Hstop (a & jpeg & Hc & He)] Hb] _ IH];
    intros s Hrun Hcam Hmin.
  - exists s, []. simpl. rewrite Hrun. repeat split; lia.
  - pose proof (capture_and_publish_succeeds i s p a jpeg Hcam Hc He) as Hpub.
    set (s1 := set_last_frame_time (t_publish i)
                 (set_frame_count (frame_count s + 1)
                    (set_frame (Some jpeg) s))) in *.
    assert (Hit : iteration jpeg_encode i s =
              (Ok tt, set_fps (Z.max MIN_FPS (fps s - 1)) s1,
               if fps s >? MIN_FPS then [Log WARNING (camera_name s)]
               else [])).
    { rewrite (iteration_published _ _ _ Hpub).
      apply (adaptive_fps_behind _ s1 Hmin).
      eapply Qle_trans; [apply (interval_le_longest _ Hmin) | exact Hb]. }
    set (s2 := set_fps (Z.max MIN_FPS (fps s - 1)) s1) in *.
    destruct (IH s2) as (s' & ev & Hw & Hf & Hn & Hs).
    + exact Hrun.
    + exact Hcam.
    + simpl. lia.
    + exists s'. eexists. split; [|split; [|split]].
      * simpl. rewrite Hrun. unfold bind at 1. rewrite Hit, Hstop.
        unfold bind at 1. unfold ret at 1. rewrite Hw. reflexivity.
      * rewrite Hf. simpl fps. simpl List.length. lia.
      * rewrite Hn. simpl frame_count. simpl List.length. lia.
      * rewrite !existsb_app, Hs.
        destruct (fps s >? MIN_FPS); reflexivity.
Qed.


(** ** The frame slot while streaming *)

Lemma cache_advances_refl s : cache_advances s s.
Proof. unfold cache_advances. repeat split; try lia. Qed.

Lemma cache_advances_trans s1 s2 s3 :
  cache_advances s1 s2 -> cache_advances s2 s3 -> cache_advances s1 s3.
Proof.
  unfold cache_advances. intros (A1 & B1 & C1) (A2 & B2 & C2).
  split; [lia|]. split.
  - intros E. assert (E2 : frame_count s2 = frame_count s1) by lia.
    assert (E3 : frame_count s3 = frame_count s2) by lia.
    destruct (B1 E2) as [F1 T1]. destruct (B2 E3) as [F2 T2].
    split; congruence.
  - intros L. destruct (Z.eq_dec (frame_count s3) (frame_count s2)) as [E|N].
    + destruct (B2 E) as [F2 _]. rewrite F2. apply C1. lia.
    + apply C2. lia.
Qed.

(** The pacing code does not touch the slot. *)
Lemma adaptive_fps_cache d s :
  let s' := state_after (adaptive_fps d) s in
  frame s' = frame s /\ frame_count s' = frame_count s /\
  last_frame_time s' = last_frame_time s.
Proof.
  unfold state_after, adaptive_fps. unmonad.
  destruct (fps s =? 0); [auto|].
  destruct (Qlt_bool 0 (py_max 0 (1 / inject_Z (fps s) - d))); [auto|].
  destruct (fps s >? MIN_FPS); simpl; auto.
Qed.

(** An iteration stores one frame or none. *)
Lemma iteration_cache i s :
  let s' := state_after (iteration jpeg_encode i) s in
  cache_advances s s' /\ frame_count s' <= frame_count s + 1.
Proof.
  destruct (capture_and_publish jpeg_encode i s) as [[[[]|[w|w]] s1] ev1] eqn:H.
  - destruct (capture_and_publish_ok _ _ _ _ H)
      as (a & jpeg & _ & _ & Hs1 & ->).
    cbv zeta. unfold state_after. rewrite (iteration_published _ _ _ H).
    destruct (adaptive_fps_cache (t_after i - t_loop_start i) s1)
      as (Hf & Hc & Ht).
    unfold state_after in Hf, Hc, Ht.
    rewrite Hs1 in Hf, Hc, Ht. simpl in Hf, Hc, Ht. rewrite <- Hs1 in *.
    unfold cache_advances. rewrite Hf, Hc.
    repeat split; try lia; discriminate.
  - cbv zeta. unfold state_after. rewrite (iteration_caught _ _ _ _ _ H).
    simpl. split; [apply cache_advances_refl | lia].
  - cbv zeta. unfold state_after. rewrite (iteration_uncaught _ _ _ _ _ H).
    simpl. split; [apply cache_advances_refl | lia].
Qed.

(** While the loop runs, whatever the camera, the encoder and [stop()] do:
    [frame_count] never goes down and grows by at most one per iteration;
    as long as it has not grown, the cached frame and its timestamp are the
    same; and once it has grown there is a frame in the slot. *)
Theorem cache_moves_forward (ins : list CycleInput) (s : CameraStream) :
  let s' := state_after (while_running jpeg_encode ins) s in
  cache_advances s s' /\
  frame_count s' <= frame_count s + Z.of_nat (List.length ins).
Proof.
  revert s. induction ins as [|i rest IH]; intros s; cbv zeta.
  - unfold state_after. simpl. destruct (running s); simpl;
      (split; [apply cache_advances_refl | lia]).
  - unfold state_after. simpl while_running.
    change (List.length (i :: rest)) with (S (List.length rest)).
    rewrite Nat2Z.inj_succ.
    destruct (running s); cbn [fst snd];
      [|split; [apply cache_advances_refl | lia]].
    pose proof (iteration_cache i s) as Hi. cbv zeta in Hi.
    unfold state_after in Hi.
    remember ((iteration jpeg_encode i ;;
               (if stop_called i then stop else ret tt) ;;
               while_running jpeg_encode rest) s) as run eqn:Hrun.
    unfold bind at 1 in Hrun.
    destruct (iteration jpeg_encode i s) as [[[[]|e] s1] ev1];
      cbn [fst snd] in Hi.
    2:{ subst run. cbn [fst snd]. destruct Hi. split; [assumption|lia]. }
    unfold bind at 1 in Hrun.
    assert (Hstop : exists s2,
               (if stop_called i then stop else ret tt) s1 = (Ok tt, s2, []) /\
               frame s2 = frame s1 /\ frame_count s2 = frame_count s1 /\
               last_frame_time s2 = last_frame_time s1).
    { destruct (stop_called i); eexists; (split; [reflexivity|auto]). }
    destruct Hstop as (s2 & Hs2 & Hf & Hc & Ht). rewrite Hs2 in Hrun.
    specialize (IH s2). cbv zeta in IH. unfold state_after in IH.
    destruct (while_running jpeg_encode rest s2) as [[r3 s3] ev3].
    subst run. cbn [fst snd] in *.
    destruct Hi as [Hi1 Hi2]. destruct IH as [IH1 IH2].
    assert (H12 : cache_advances s1 s2).
    { unfold cache_advances. rewrite Hf, Hc, Ht. repeat split; try lia. }
    split.
    + eapply cache_advances_trans; [exact Hi1|].
      eapply cache_advances_trans; [exact H12 | exact IH1].
    + lia.
Qed.


(** ** What a viewer sees *)

Lemma chunks_app ev1 ev2 : chunks (ev1 ++ ev2) = chunks ev1 ++ chunks ev2.
Proof. unfold chunks. apply flat_map_app. Qed.

(** A step of the generator never raises, leaves the slot alone, and hands
    over either nothing or the frame that is in the slot. *)
Lemma generate_mjpeg_step close pc s :
  exists pc' s1 ev1,
    generate_mjpeg close pc s = (Ok pc', s1, ev1) /\
    frame s1 = frame s /\
    (chunks ev1 = [] \/
     exists f, frame s = Some f /\ chunks ev1 = [multipart f]).
Proof.
  destruct pc.
  - rewrite generate_mjpeg_Created. do 3 eexists. repeat split. now left.
  - rewrite generate_mjpeg_Connecting. do 3 eexists. repeat split. now left.
  - rewrite generate_mjpeg_Polling. destruct (frame s) as [f|] eqn:E;
      do 3 eexists; (split; [reflexivity|]); (split; [exact E|]).
    + right. exists f. split; reflexivity.
    + now left.
  - rewrite generate_mjpeg_Yielded.
    destruct (close || (fps s =? 0)); do 3 eexists; repeat split; now left.
  - rewrite generate_mjpeg_Leaving. do 3 eexists. repeat split. now left.
  - rewrite generate_mjpeg_Finished. do 3 eexists. repeat split. now left.
Qed.

(** However publishing and viewing interleave, the frames handed to a
    viewer are frames that were in the slot, in the order in which they
    were published: one may be missed, one may be seen again, an older one
    never comes after a newer one. *)
Theorem viewer_sees_frames_in_order
    (acts : list action) (pc : gen_pc) (s : CameraStream) :
  exists seen,
    chunks (snd (run_actions acts pc s)) = map multipart seen /\
    follows seen (option_list (frame s) ++ published acts).
Proof.
  revert pc s. induction acts as [|[jpeg now|close] rest IH]; intros pc s.
  - exists []. split; [reflexivity | constructor].
  - simpl run_actions. unfold bind at 1.
    change (publish jpeg now s) with
      (Ok tt,
       set_last_frame_time now
         (set_frame_count (frame_count s + 1) (set_frame (Some jpeg) s)),
       @nil event).
    set (s1 := set_last_frame_time now _).
    destruct (IH pc s1) as (seen & Hc & Hf).
    destruct (run_actions rest pc s1) as [[r s2] ev2]. simpl in *.
    exists seen. split; [exact Hc|].
    destruct (frame s); simpl; [apply follows_skip|]; exact Hf.
  - simpl run_actions. unfold bind at 1.
    destruct (generate_mjpeg_step close pc s)
      as (pc' & s1 & ev1 & -> & Hframe & Hchunk).
    destruct (IH pc' s1) as (seen & Hc & Hf).
    destruct (run_actions rest pc' s1) as [[r s2] ev2].
    cbn [fst snd] in *. rewrite chunks_app, Hc. rewrite Hframe in Hf.
    simpl published.
    destruct Hchunk as [-> | (f & Hs & ->)].
    + exists seen. split; [reflexivity | exact Hf].
    + exists (f :: seen). split; [reflexivity|].
      rewrite Hs in *. simpl in *. apply follows_again. exact Hf.
Qed.


(** A viewer of a feed that has no frame yet: it is counted, then polls
    every 10 ms and is handed nothing; the server's wish to close it is not
    seen, since it never reaches a [yield], so its count is not taken back
    as long as the slot is empty. *)
Theorem viewer_waits_for_first_frame
    (c1 c2 : bool) (closes : list bool) (s : CameraStream)
    (Hempty : frame s = None) :
  run_generator (c1 :: c2 :: closes) Created s =
    (Ok Polling, set_clients (clients s + 1) s,
     Log INFO (camera_name s)
       :: repeat (Sleep (1 # 100)) (List.length closes)) /\
  chunks (snd (run_generator (c1 :: c2 :: closes) Created s)) = [].
Proof.
  assert (Hpoll : forall cs s0, frame s0 = None ->
            run_generator cs Polling s0 =
              (Ok Polling, s0, repeat (Sleep (1 # 100)) (List.length cs))).
  { induction cs as [|c cs IH]; intros s0 H0; [reflexivity|].
    change (run_generator (c :: cs) Polling s0)
      with (bind (generate_mjpeg c Polling)
              (fun pc' => run_generator cs pc') s0).
    unfold bind. rewrite generate_mjpeg_Polling, H0, (IH s0 H0).
    reflexivity. }
  assert (Hrun : run_generator (c1 :: c2 :: closes) Created s =
            (Ok Polling, set_clients (clients s + 1) s,
             Log INFO (camera_name s)
               :: repeat (Sleep (1 # 100)) (List.length closes))).
  { change (run_generator (c1 :: c2 :: closes) Created s)
      with (bind (generate_mjpeg c1 Created)
              (fun pc1 => bind (generate_mjpeg c2 pc1)
                 (fun pc2 => run_generator closes pc2)) s).
    unfold bind. rewrite generate_mjpeg_Created, generate_mjpeg_Connecting.
    rewrite (Hpoll closes (set_clients (clients s + 1) s) Hempty).
    reflexivity. }
  split; [exact Hrun|]. rewrite Hrun. cbn [snd].
  change (chunks (repeat (Sleep (1 # 100)) (List.length closes)) = []).
  generalize (List.length closes) as n.
  induction n as [|n IHn]; [reflexivity | exact IHn].
Qed.

(** ** Initialising the camera *)

(** [initialize_camera] returns [True] exactly when the constructor and the
    configuration both succeed, and then holds a camera started at
    [RESOLUTION]; when either raises an [Exception] it returns [False] with
    no camera held, even if the constructor had succeeded; it touches
    nothing but [self.picam]; and only what is not an [Exception] escapes
    from it. *)
Theorem initialize_camera_outcome (ii : InitInput) (s : CameraStream) :
  let r := result_of (initialize_camera ii) s in
  let s' := state_after (initialize_camera ii) s in
  (r = Ok true <->
     open_camera ii = Ok tt /\ configure_and_start ii = Ok tt) /\
  (r = Ok true ->
     picam s' = Some (mkPicamera2 (camera_index s) RESOLUTION true)) /\
  (r = Ok false <-> acquisition_fails ii) /\
  (r = Ok false -> picam s' = None) /\
  set_picam None s' = set_picam None s /\
  (forall e, r = Raise e -> exists w, e = BaseException w).
Proof.
  unfold result_of, state_after, initialize_camera, acquisition_fails.
  unmonad.
  destruct (open_camera ii) as [[]|[w|w]]; simpl;
    [destruct (configure_and_start ii) as [[]|[w|w]]; simpl|..];
    (split; [split; [intros H; try discriminate H; auto
                    |intros [H1 H2]; try discriminate H1;
                     try discriminate H2; auto]|]);
    (split; [intros H; try discriminate H; auto|]);
    (split; [split; [intros H; try discriminate H; eauto
                    |intros [[w' H]|[H1 [w' H2]]];
                     try discriminate H; try discriminate H1;
                     try discriminate H2; auto]|]);
    (split; [intros H; try discriminate H; auto|]);
    (split; [reflexivity|]);
    intros e H; try discriminate H; inversion H; eauto.
Qed.

(** ** The multipart envelope *)

(** The envelope is a fixed 37-byte part header, the frame untouched, and a
    closing CRLF, so that frames of different content never give the same
    chunk. *)
Theorem multipart_envelope (f1 f2 : bytes) :
  (exists header,
     List.length header = 37%nat /\
     forall f, multipart f = header ++ f ++ CRLF) /\
  List.length (multipart f1) = (List.length f1 + 39)%nat /\
  (multipart f1 = multipart f2 -> f1 = f2).
Proof.
  set (header := list_byte_of_string "--frame" ++ CRLF ++
                 list_byte_of_string "Content-Type: image/jpeg" ++
                 CRLF ++ CRLF).
  assert (Hm : forall f, multipart f = header ++ f ++ CRLF).
  { intros f. unfold multipart, header. rewrite <- !app_assoc. reflexivity. }
  split; [exists header; split; [reflexivity | exact Hm]|]. split.
  - rewrite Hm, !length_app. change (List.length header) with 37%nat.
    change (List.length CRLF) with 2%nat. lia.
  - rewrite !Hm. intros H. apply app_inv_head in H.
    apply app_inv_tail in H. exact H.
Qed.

(** ** Who writes what *)

(** The capture thread never writes [clients], the name, the index or the
    start time of its feed, and a viewer writes nothing but [clients]: the
    counter belongs to the viewers and everything else to the capture
    loop. *)
Theorem capture_and_viewers_write_apart
    (ii : InitInput) (ins : list CycleInput) (close : bool) (pc : gen_pc)
    (s : CameraStream) :
  let s' := state_after (capture_loop jpeg_encode ii ins) s in
  (clients s' = clients s /\ camera_name s' = camera_name s /\
   camera_index s' = camera_index s /\ start_time s' = start_time s) /\
  same_but_clients s (state_after (generate_mjpeg close pc) s).
Proof.
  split; [|apply generate_mjpeg_same_but_clients].
  set (R := fun a b : CameraStream =>
              clients b = clients a /\ camera_name b = camera_name a /\
              camera_index b = camera_index a /\ start_time b = start_time a).
  change (R s (state_after (capture_loop jpeg_encode ii ins) s)).
  apply respects_capture_loop.
  - intros a. unfold R. auto.
  - intros a b c (A1 & A2 & A3 & A4) (B1 & B2 & B3 & B4). unfold R.
    repeat split; congruence.
  - intros v a. unfold R. auto.
  - intros v a. unfold R. auto.
  - intros v a. unfold R. auto.
  - intros d a. unfold state_after, adaptive_fps. unmonad.
    destruct (fps a =? 0); [unfold R; auto|].
    destruct (Qlt_bool 0 (py_max 0 (1 / inject_Z (fps a) - d)));
      [unfold R; auto|].
    destruct (fps a >? MIN_FPS); unfold R; simpl; auto.
  - intros v a. unfold R. auto.
  - intros v a. unfold R. auto.
Qed.


(** ** Stopping *)

(** [stop()] reaches a loop that is running: its next test of the flag ends
    it with no further capture, and the camera is then released.  But a
    [stop()] that comes before [capture_loop] has begun is lost: the first
    statement of [capture_loop] sets the flag again, and the loop runs as
    if nothing had been asked. *)
Theorem stop_before_start_is_lost
    (ii : InitInput) (ins : list CycleInput) (s : CameraStream) :
  let stopped := state_after stop s in
  while_running jpeg_encode ins stopped = (Ok Exited, stopped, []) /\
  (forall p, picam s = Some p ->
     try_finally (while_running jpeg_encode ins) release stopped =
       (Ok Exited, set_picam (Some (Picamera2_stop p)) stopped,
        [Log INFO (camera_name s)])) /\
  capture_loop jpeg_encode ii ins stopped = capture_loop jpeg_encode ii ins s.
Proof.
  cbv zeta. unfold state_after, stop, modify. cbn [fst snd].
  split; [|split].
  - destruct ins; reflexivity.
  - intros p Hp. unfold try_finally.
    replace (while_running jpeg_encode ins (set_running false s))
      with (@Ok loop_state Exited, set_running false s, @nil event)
      by (destruct ins; reflexivity).
    unfold release. unmonad. rewrite Hp. reflexivity.
  - unfold capture_loop. unfold bind at 1. unfold modify at 1.
    unfold bind at 3. unfold modify at 1. reflexivity.
Qed.

End Properties.

(** * The definitions at work *)

(** C8. The counter is read and written back without a lock, so two
    viewers that connect together can both store 1: with two viewers
    connected [clients] is 1, and once both have left it is -1. *)
Theorem client_counter_race :
  let start := (left_streaming, [Created; Created]) in
  let connected_state := run_schedule racing_connects start in
  let final := run_schedule then_both_leave connected_state in
  clients (fst start) = 0 /\
  count_connected (snd connected_state) = 2 /\
  clients (fst connected_state) = 1 /\
  snd final = [Finished; Finished] /\
  clients (fst final) = -1.
Proof. vm_compute. repeat split. Qed.

(** C2, as stated, fails: after a start-up without camera the statistics
    say running and count no frame. *)
Lemma degraded_stats_counterexample :
  exists d,
    result_of (get_stats 2000)
      (state_after (capture_loop toy_encode camera_missing []) left_feed)
      = Ok d /\
    dict_get "running" d <> Some (VBool false) /\
    dict_get "frames_captured" d <> Some (VInt 1).
Proof.
  eexists. split; [reflexivity|]. split; vm_compute; discriminate.
Qed.



(** The governor on the 150 ms cycle of a feed running at 10. *)
Lemma governor_step_witness :
  MIN_FPS <= fps left_started /\
  fps left_started = 10 /\
  iteration toy_encode slow_cycle left_started =
    (Ok tt,
     set_fps 9 (state_after (capture_and_publish toy_encode slow_cycle)
                  left_started),
     [Log WARNING "left"%string]) /\
  fps (state_after (iteration toy_encode slow_cycle) left_started) = 9.
Proof.
  split; [vm_compute; discriminate|]. split; [reflexivity|].
  refine (proj2 (proj2
    (governor_step toy_encode slow_cycle left_started _ [] _ eq_refl))
    eq_refl eq_refl).
  vm_compute; discriminate.
Defined.

(** Two failed cycles in a row on a streaming feed. *)
Lemma transient_errors_are_retried_witness :
  running left_streaming = true /\
  while_running toy_encode [bad_cycle; bad_cycle] left_streaming =
    (Ok Looping, left_streaming,
     backoff left_streaming ++ backoff left_streaming).
Proof.
  split; [reflexivity|].
  refine (proj2
    (transient_errors_are_retried toy_encode [bad_cycle; bad_cycle] []
       left_streaming eq_refl _)).
  repeat constructor; do 3 eexists; reflexivity.
Defined.

Lemma failed_cycle_leaves_cache_untouched_witness :
  capture_and_publish toy_encode bad_cycle left_streaming =
    (Raise (Exception "empty image"%string), left_streaming, []) /\
  frame (state_after (iteration toy_encode bad_cycle) left_streaming) =
    frame left_streaming.
Proof.
  split; [reflexivity|].
  exact (proj1 (proj2
    (failed_cycle_leaves_cache_untouched toy_encode bad_cycle
       left_streaming left_streaming _ [] eq_refl))).
Defined.

(** The same failure stretched over a minute. *)
Lemma failed_cycle_keeps_rate_witness :
  capture_and_publish toy_encode bad_cycle left_streaming =
    (Raise (Exception "empty image"%string), left_streaming, []) /\
  fps (state_after
         (iteration toy_encode (mkCycleInput 1001 (Ok []) 1030 1061 false))
         left_streaming) = fps left_streaming.
Proof.
  split; [reflexivity|].
  exact (proj1
    (failed_cycle_keeps_rate toy_encode bad_cycle left_streaming
       left_streaming _ [] eq_refl 1001 1030 1061 false)).
Defined.


(** The left feed started without its camera. *)
Lemma degraded_feed_witness :
  acquisition_fails camera_missing /\
  toy_encode (Image_new RESOLUTION (50, 50, 50)) 50 = Ok [x50; x48] /\
  capture_loop toy_encode camera_missing [slow_cycle] left_feed =
    (Ok Exited,
     set_frame (Some [x50; x48]) (set_running true left_feed),
     [Log ERROR "left"%string; Log INFO "left"%string]).
Proof.
  assert (H : acquisition_fails camera_missing)
    by (left; eexists; reflexivity).
  split; [exact H|]. split; [reflexivity|].
  exact (proj1 (proj2
    (degraded_feed toy_encode "left"%string 0 1000 camera_missing
       [slow_cycle] [x50; x48] H eq_refl))).
Defined.



(** Sleeps of the streaming left feed and of one of its viewers. *)
Lemma sleeps_are_positive_witness :
  0 < fps left_streaming /\
  Forall positive_sleep
    (snd (capture_loop toy_encode camera_ok [slow_cycle; bad_cycle]
            left_streaming)) /\
  Forall positive_sleep
    (snd (run_generator [false; false; false; false] Created
            left_streaming)).
Proof.
  assert (H : 0 < fps left_streaming) by reflexivity.
  split; [exact H|].
  exact (sleeps_are_positive toy_encode camera_ok [slow_cycle; bad_cycle]
           [false; false; false; false] Created left_streaming H).
Defined.

(** Two cycles of 250 ms take the rate from 10 to 8. *)
Lemma rate_falls_to_floor_witness :
  running left_started = true /\ MIN_FPS <= fps left_started /\
  exists s' ev,
    while_running toy_encode [late_cycle; late_cycle] left_started =
      (Ok Looping, s', ev) /\
    fps s' = 8.
Proof.
  assert (Hmin : MIN_FPS <= fps left_started) by (vm_compute; discriminate).
  assert (Hins : Forall (fun i => captures toy_encode i /\ behind i)
                   [late_cycle; late_cycle]).
  { repeat constructor; try (do 2 eexists; split; reflexivity);
      vm_compute; discriminate. }
  split; [reflexivity|]. split; [exact Hmin|].
  destruct (rate_falls_to_floor toy_encode [late_cycle; late_cycle]
              left_started _ eq_refl eq_refl Hmin Hins)
    as (s' & ev & H1 & H2 & _).
  exists s', ev. split; [exact H1 | exact H2].
Defined.

(** A viewer of the left feed before its first frame. *)
Lemma viewer_waits_for_first_frame_witness :
  frame left_started = None /\
  chunks (snd (run_generator [false; false; false; true; true] Created
                 left_started)) = [].
Proof.
  split; [reflexivity|].
  exact (proj2 (viewer_waits_for_first_frame false false
                  [false; true; true] left_started eq_refl)).
Defined.

(** * Properties of the BLE control server *)

Module BleProperties.

Import Ble.
Local Open Scope string_scope.

(** Unfolds the monadic plumbing. *)
Ltac unble :=
  unfold Ble.bind, Ble.ret, Ble.get, Ble.emit, Ble.call, Ble.run,
    Ble.try_except in *; simpl in *.

(** ** What a command can emit *)

Section BleEmits.

Variable P : effect -> Prop.

Lemma ble_emits_ret {A} (a : A) : emits P (Ble.ret a).
Proof. intros s. constructor. Qed.

Lemma ble_emits_call {A} (r : result A) : emits P (Ble.call r).
Proof. intros s. constructor. Qed.

Lemma ble_emits_emit e : P e -> emits P (Ble.emit e).
Proof. intros H s. repeat constructor. exact H. Qed.

Lemma ble_emits_bind {A C} (m : B A) (f : A -> B C) :
  emits P m -> (forall a, emits P (f a)) -> emits P (Ble.bind m f).
Proof.
  intros Hm Hf s. specialize (Hm s). unfold Ble.bind.
  destruct (m s) as [[[a|e] s1] ev1]; simpl in *; [|exact Hm].
  specialize (Hf a s1). destruct (f a s1) as [[r s2] ev2]; simpl in *.
  apply Forall_app. auto.
Qed.

Lemma ble_emits_try_except {A} (m : B A) (h : string -> B A) :
  emits P m -> (forall w, emits P (h w)) -> emits P (try_except m h).
Proof.
  intros Hm Hh s. specialize (Hm s). unfold try_except.
  destruct (m s) as [[[a|[w|w]] s1] ev1]; simpl in *; try exact Hm.
  specialize (Hh w s1). destruct (h w s1) as [[r s2] ev2]; simpl in *.
  apply Forall_app. auto.
Qed.

End BleEmits.

Lemma send_response_allowed message :
  emits allowed (send_response message).
Proof.
  intros s. unfold send_response. unble.
  destruct (nth_error (characteristics s) (response_char s)) as [c|];
    [|constructor].
  destruct (is_notifying c); simpl; constructor.
Qed.

Lemma run_allowed argv outcome :
  In argv allowed_argv -> emits allowed (run argv outcome).
Proof.
  intros H. unfold run. apply ble_emits_bind; [|intros; apply ble_emits_call].
  apply ble_emits_emit. exact H.
Qed.

(** Whatever the command says, [handle_command] runs nothing but the nine
    fixed argument vectors: no part of the text received -- not the word,
    not what follows the colon -- is ever handed to [subprocess.run]. *)
Theorem handle_command_runs_only_fixed_commands
    (command : string) (i : CommandInput) (s : ThirdEyeService) :
  Forall (fun argv => In argv allowed_argv)
    (runs (snd (handle_command command i s))).
Proof.
  assert (H : emits allowed (handle_command command i)).
  { unfold handle_command. apply ble_emits_try_except.
    - apply ble_emits_bind.
      + unfold first_part. destruct (split_colon_1 (strip command));
          [apply ble_emits_call | apply ble_emits_ret].
      + intros part0.
        repeat match goal with
               | |- emits _ (if ?c then _ else _) => destruct c
               end;
          repeat first
            [ apply ble_emits_ret
            | apply send_response_allowed
            | apply run_allowed; simpl; tauto
            | apply ble_emits_bind
            | intro ].
    - intros w. apply ble_emits_bind; [apply ble_emits_emit; exact I|]. intros _.
      apply ble_emits_bind; [apply send_response_allowed | intros; apply ble_emits_ret]. }
  specialize (H s). induction H as [|e tr He _ IH]; [constructor|].
  destruct e; simpl; auto.
Qed.

(** ** The word a command is dispatched on *)

Lemma split_colon_1_cons s : exists p rest, split_colon_1 s = p :: rest.
Proof.
  unfold split_colon_1. destruct (split_once ":" s) as [h [t|]]; eauto.
Qed.

(** [handle_command] looks at nothing of the command but [verb]. *)
Lemma handle_command_verb c1 c2 i s :
  verb c1 = verb c2 -> handle_command c1 i s = handle_command c2 i s.
Proof.
  unfold verb, handle_command.
  destruct (split_colon_1_cons (strip c1)) as (p1 & r1 & ->).
  destruct (split_colon_1_cons (strip c2)) as (p2 & r2 & ->).
  intros H.
  cbv beta iota zeta delta [first_part Ble.bind Ble.ret try_except].
  rewrite H. reflexivity.
Qed.

Lemma lstrip_spaces ws x : all_space ws = true -> lstrip (ws ++ x) = lstrip x.
Proof.
  induction ws as [|c ws IH]; simpl; [reflexivity|].
  intros H. apply andb_true_iff in H. destruct H as [Hc Hws].
  rewrite Hc. auto.
Qed.

Lemma rstrip_spaces ws : all_space ws = true -> rstrip ws = EmptyString.
Proof.
  induction ws as [|c ws IH]; simpl; [reflexivity|].
  intros H. apply andb_true_iff in H. destruct H as [Hc Hws].
  rewrite (IH Hws), Hc. reflexivity.
Qed.

(** Stripping on the right leaves alone what stands before a character
    that is not white space. *)
Lemma rstrip_before w c r :
  isspace c = false ->
  exists r', rstrip (w ++ String c r) = w ++ String c r'.
Proof.
  intros Hc.
  assert (H0 : exists r', rstrip (String c r) = String c r').
  { simpl. destruct (rstrip r); [rewrite Hc|]; eauto. }
  induction w as [|d w IH]; simpl; [exact H0|].
  destruct IH as (r' & ->).
  destruct (w ++ String c r') eqn:E.
  - destruct w; discriminate E.
  - exists r'. rewrite E. reflexivity.
Qed.

Lemma rstrip_append_spaces w ws :
  all_space ws = true -> rstrip (w ++ ws) = rstrip w.
Proof.
  intros H. induction w as [|d w IH]; simpl.
  - now apply rstrip_spaces.
  - now rewrite IH.
Qed.

Lemma split_once_colon w x :
  no_colon w = true -> split_once ":" (w ++ String ":" x) = (w, Some x).
Proof.
  induction w as [|d w IH]; simpl; [reflexivity|].
  intros H. apply andb_true_iff in H. destruct H as [Hd Hw].
  apply negb_true_iff in Hd. rewrite Hd, (IH Hw). reflexivity.
Qed.

Lemma split_once_none w :
  no_colon w = true -> split_once ":" w = (w, None).
Proof.
  induction w as [|d w IH]; simpl; [reflexivity|].
  intros H. apply andb_true_iff in H. destruct H as [Hd Hw].
  apply negb_true_iff in Hd. rewrite Hd, (IH Hw). reflexivity.
Qed.

Lemma lstrip_fixed_append w x :
  lstrip w = w -> w <> EmptyString -> lstrip (w ++ x) = w ++ x.
Proof.
  destruct w as [|c w]; [congruence|]. simpl.
  destruct (isspace c) eqn:E; [|reflexivity].
  intros H _. exfalso.
  assert (L : forall u, (String.length (lstrip u) <= String.length u)%nat).
  { induction u as [|d u IHu]; simpl; [lia|].
    destruct (isspace d); simpl; lia. }
  specialize (L w). rewrite H in L. simpl in L. lia.
Qed.

Lemma upper_space c : isspace (upper_char c) = isspace c.
Proof.
  unfold upper_char.
  destruct (((97 <=? nat_of_ascii c) && (nat_of_ascii c <=? 122))%nat) eqn:E;
    [|reflexivity].
  apply andb_true_iff in E. destruct E as [E1 E2].
  apply Nat.leb_le in E1. apply Nat.leb_le in E2.
  unfold isspace. rewrite nat_ascii_embedding by lia.
  repeat match goal with
         | |- context [(?a <=? ?b)%nat] =>
             destruct (Nat.leb_spec a b); try lia
         end; reflexivity.
Qed.

Lemma upper_colon c : Ascii.eqb (upper_char c) ":" = Ascii.eqb c ":".
Proof.
  unfold upper_char.
  destruct (((97 <=? nat_of_ascii c) && (nat_of_ascii c <=? 122))%nat) eqn:E;
    [|reflexivity].
  apply andb_true_iff in E. destruct E as [E1 E2].
  apply Nat.leb_le in E1. apply Nat.leb_le in E2.
  assert (N1 : Ascii.eqb (ascii_of_nat (nat_of_ascii c - 32)) ":" = false).
  { apply Ascii.eqb_neq. intros H. apply (f_equal nat_of_ascii) in H.
    rewrite nat_ascii_embedding in H by lia.
    change (nat_of_ascii ":") with 58%nat in H. lia. }
  assert (N2 : Ascii.eqb c ":" = false).
  { apply Ascii.eqb_neq. intros H. subst c.
    change (nat_of_ascii ":") with 58%nat in E1. lia. }
  now rewrite N1, N2.
Qed.

Lemma upper_lstrip w : lstrip (upper w) = upper (lstrip w).
Proof.
  induction w as [|c w IH]; simpl; [reflexivity|].
  rewrite upper_space. destruct (isspace c); [exact IH | reflexivity].
Qed.

Lemma upper_rstrip w : rstrip (upper w) = upper (rstrip w).
Proof.
  induction w as [|c w IH]; simpl; [reflexivity|].
  rewrite IH. destruct (rstrip w); simpl.
  - rewrite upper_space. now destruct (isspace c).
  - reflexivity.
Qed.

Lemma upper_no_colon w : no_colon (upper w) = no_colon w.
Proof.
  unfold no_colon. induction w as [|c w IH]; simpl; [reflexivity|].
  now rewrite upper_colon, IH.
Qed.

Lemma upper_idempotent_char c : upper_char (upper_char c) = upper_char c.
Proof.
  unfold upper_char at 2.
  destruct (((97 <=? nat_of_ascii c) && (nat_of_ascii c <=? 122))%nat) eqn:E.
  - apply andb_true_iff in E. destruct E as [E1 E2].
    apply Nat.leb_le in E1. apply Nat.leb_le in E2.
    unfold upper_char at 2. rewrite (proj2 (andb_true_iff _ _)
      (conj (proj2 (Nat.leb_le _ _) E1) (proj2 (Nat.leb_le _ _) E2))).
    unfold upper_char. rewrite nat_ascii_embedding by lia.
    destruct (Nat.leb_spec 97 (nat_of_ascii c - 32)); [lia|]. reflexivity.
  - unfold upper_char. now rewrite E.
Qed.

Lemma upper_idempotent w : upper (upper w) = upper w.
Proof.
  induction w as [|c w IH]; simpl; [reflexivity|].
  now rewrite upper_idempotent_char, IH.
Qed.

(** A word that is already stripped and has no colon is its own verb, up to
    case. *)
Lemma verb_word w :
  lstrip w = w -> rstrip w = w -> no_colon w = true -> verb w = upper w.
Proof.
  intros Hl Hr Hc. unfold verb, strip, split_colon_1.
  rewrite Hl, Hr, (split_once_none _ Hc). reflexivity.
Qed.

Lemma lstrip_all_space ws : all_space ws = true -> lstrip ws = EmptyString.
Proof.
  induction ws as [|c ws IH]; simpl; [reflexivity|].
  intros H. apply andb_true_iff in H. destruct H as [Hc Hws].
  rewrite Hc. auto.
Qed.

(** White space around a command, the case of its letters and whatever
    follows the first colon make no difference: a stripped word [w] without
    colon is dispatched as [w.upper()], alone or followed by a colon and
    anything at all. *)
Theorem command_word_is_normalised
    (ws1 ws2 w rest : string) (i : CommandInput) (s : ThirdEyeService)
    (Hascii : is_ascii w = true)
    (Hws1 : all_space ws1 = true) (Hws2 : all_space ws2 = true)
    (Hl : lstrip w = w) (Hr : rstrip w = w) (Hc : no_colon w = true) :
  verb (ws1 ++ w ++ ws2) = upper w /\
  verb (ws1 ++ w ++ ":" ++ rest) = upper w /\
  handle_command (ws1 ++ w ++ ws2) i s = handle_command (upper w) i s /\
  handle_command (ws1 ++ w ++ ":" ++ rest) i s = handle_command (upper w) i s.
Proof.
  assert (V0 : verb (upper w) = upper w).
  { rewrite verb_word.
    - apply upper_idempotent.
    - now rewrite upper_lstrip, Hl.
    - now rewrite upper_rstrip, Hr.
    - now rewrite upper_no_colon. }
  assert (V1 : verb (ws1 ++ w ++ ws2) = upper w).
  { unfold verb, strip, split_colon_1. rewrite (lstrip_spaces _ _ Hws1).
    destruct w as [|c w'] eqn:Ew.
    - simpl String.append. rewrite (lstrip_all_space _ Hws2). reflexivity.
    - rewrite <- Ew in *. rewrite lstrip_fixed_append; [|exact Hl|congruence].
      rewrite (rstrip_append_spaces _ _ Hws2), Hr, (split_once_none _ Hc).
      reflexivity. }
  assert (V2 : verb (ws1 ++ w ++ ":" ++ rest) = upper w).
  { unfold verb, strip, split_colon_1. rewrite (lstrip_spaces _ _ Hws1).
    assert (L : lstrip (w ++ ":" ++ rest) = w ++ ":" ++ rest).
    { destruct w as [|c w'] eqn:Ew; [reflexivity|].
      rewrite <- Ew in *. apply lstrip_fixed_append; [exact Hl|congruence]. }
    rewrite L.
    destruct (rstrip_before w ":" rest eq_refl) as (r' & R).
    change (w ++ ":" ++ rest) with (w ++ String ":" rest).
    rewrite R, (split_once_colon _ _ Hc). reflexivity. }
  repeat split; auto; apply handle_command_verb; congruence.
Qed.

(** ** Case analysis on a command *)

Ltac split_verb p :=
  destruct (upper p =? "WIFI_STATUS") eqn:E1;
  [| destruct (upper p =? "WIFI_START") eqn:E2;
  [| destruct (upper p =? "WIFI_STOP") eqn:E3;
  [| destruct (upper p =? "CAMERA_START") eqn:E4;
  [| destruct (upper p =? "CAMERA_STOP") eqn:E5;
  [| destruct (upper p =? "REBOOT") eqn:E6;
  [| destruct (upper p =? "STATUS") eqn:E7 ]]]]]].

(** Splits on whatever outcome or flag the goal still inspects. *)
Ltac outcomes :=
  repeat (simpl; try unfold is_notifying; simpl;
          match goal with
          | |- context [match ?x with _ => _ end] => is_var x; destruct x
          | |- context [if ?x then _ else _] => is_var x; destruct x
          end).

Ltac open_command command p :=
  unfold handle_command, verb;
  let rest := fresh "rest" in
  let Hs := fresh "Hs" in
  destruct (split_colon_1_cons (strip command)) as (p & rest & Hs);
  rewrite Hs;
  cbv beta iota zeta delta
    [first_part Ble.bind Ble.ret try_except Ble.run Ble.emit Ble.call
     Ble.get send_response].

(** The device is rebooted exactly when the word is REBOOT and
    notifications are off.  With notifications on, the announcement that
    precedes the reboot raises [AttributeError] -- nothing defines
    [PropertiesChanged] -- and [sudo reboot] is not reached: a device that
    has subscribed to the responses cannot be rebooted. *)
Theorem reboot_happens_exactly_when
    (command : string) (i : CommandInput) (b : bool)
    (Hascii : is_ascii command = true) :
  reboots (snd (handle_command command i (service b))) =
    (verb command =? "REBOOT") && negb b.
Proof.
  destruct i as [r1 r2].
  open_command command p. split_verb p;
    try (apply String.eqb_eq in E1; rewrite E1);
    try (apply String.eqb_eq in E2; rewrite E2);
    try (apply String.eqb_eq in E3; rewrite E3);
    try (apply String.eqb_eq in E4; rewrite E4);
    try (apply String.eqb_eq in E5; rewrite E5);
    try rewrite E6;
    outcomes; reflexivity.
Qed.


(** When [subprocess.run] raises nothing worse than an [Exception]: with
    notifications off every command -- known or not, succeeding or not --
    returns a value and leaves the service as it was.  With notifications
    on no command returns: every one ends in the [AttributeError] of
    [send_response], raised out of [handle_command] (from the handler, if
    not before), after running what it runs with notifications off --
    except REBOOT, which then runs nothing. *)
Theorem notifying_makes_every_command_raise
    (command : string) (i : CommandInput)
    (Hascii : is_ascii command = true)
    (H1 : not_fatal (run1 i)) (H2 : not_fatal (run2 i)) :
  let off := handle_command command i (service false) in
  let on := handle_command command i (service true) in
  is_ok (fst (fst off)) = true /\
  snd (fst off) = service false /\
  fst (fst on) = Raise (Exception no_PropertiesChanged) /\
  snd (fst on) = service true /\
  runs (snd on) =
    (if verb command =? "REBOOT" then [] else runs (snd off)).
Proof.
  destruct i as [r1 r2]. simpl in H1, H2.
  open_command command p. split_verb p;
    try (apply String.eqb_eq in E1; rewrite E1);
    try (apply String.eqb_eq in E2; rewrite E2);
    try (apply String.eqb_eq in E3; rewrite E3);
    try (apply String.eqb_eq in E4; rewrite E4);
    try (apply String.eqb_eq in E5; rewrite E5);
    try rewrite E6;
    outcomes; try contradiction; repeat split.
Qed.

(** A word that is none of the seven commands runs nothing and leaves the
    service as it was.  With notifications off [handle_command] returns
    "error" and nothing at all happens: the refusal is not even logged.
    With notifications on the refusal cannot be sent: the [AttributeError]
    is logged by the handler and raised again. *)
Theorem unknown_command_is_refused
    (command : string) (i : CommandInput) (b : bool)
    (Hascii : is_ascii command = true)
    (Hunknown : ~ In (verb command) known_commands) :
  let out := handle_command command i (service b) in
  runs (snd out) = [] /\
  snd (fst out) = service b /\
  (b = false -> out = (Ok "error", service false, [])) /\
  (b = true ->
   out = (Raise (Exception no_PropertiesChanged), service true,
          [Log ERROR ("Command handler error: " ++ no_PropertiesChanged)])).
Proof.
  destruct i as [r1 r2]. revert Hunknown.
  open_command command p. intros Hunknown.
  split_verb p;
    try (exfalso; apply Hunknown;
         first [apply String.eqb_eq in E1; rewrite E1
               |apply String.eqb_eq in E2; rewrite E2
               |apply String.eqb_eq in E3; rewrite E3
               |apply String.eqb_eq in E4; rewrite E4
               |apply String.eqb_eq in E5; rewrite E5
               |apply String.eqb_eq in E6; rewrite E6
               |apply String.eqb_eq in E7; rewrite E7];
         simpl; tauto).
  outcomes; repeat split; intros; simpl in *;
    try discriminate; try congruence.
Qed.

(** ** Switching notifications on and off *)

Lemma last_cons {A} (a d : A) (l : list A) : last (a :: l) d = last l a.
Proof.
  revert a d. induction l as [|x l IH]; intros a d; [reflexivity|].
  change (last (a :: x :: l) d) with (last (x :: l) d).
  now rewrite (IH x d), (IH x a).
Qed.

(** After any series of StartNotify and StopNotify calls the service is as
    built, with notifications on exactly when the last call was a
    StartNotify (repeating a call changes nothing).  [send_response] then
    does nothing at all when they are off, and when they are on raises
    [AttributeError] without having sent or logged anything. *)
Theorem notifications_follow_last_call
    (ks : list notify_call) (b : bool) (message : string) :
  let state := last (map switches_on ks) b in
  notify_calls ks (service b) = service state /\
  send_response message (notify_calls ks (service b)) =
    ((if state then Raise (Exception no_PropertiesChanged) else Ok tt),
     service state, []).
Proof.
  assert (H : notify_calls ks (service b) =
              service (last (map switches_on ks) b)).
  { revert b. induction ks as [|k ks IH]; intros b; [reflexivity|].
    change (notify_calls (k :: ks) (service b))
      with (notify_calls ks (notify_method k (service b))).
    replace (notify_method k (service b)) with (service (switches_on k))
      by (destruct k, b; reflexivity).
    rewrite IH. simpl map. now rewrite last_cons. }
  cbv zeta. rewrite H. split; [reflexivity|].
  destruct (last (map switches_on ks) b); reflexivity.
Qed.


(** ** A failed action *)

(** When the first thing a known command runs raises an [Exception]: with
    notifications off the command stops there -- a second action is not
    attempted -- the error is logged with the text of the exception, and
    "error" is returned.  With notifications on the handler cannot send its
    report and [handle_command] raises [AttributeError] instead of
    returning; one action was run, or none for REBOOT, which does not get
    as far as running anything. *)
Theorem failed_action_is_reported
    (command : string) (i : CommandInput) (b : bool) (w : string)
    (Hascii : is_ascii command = true)
    (Hknown : In (verb command) known_commands)
    (Hfail : run1 i = Raise (Exception w)) :
  let out := handle_command command i (service b) in
  (b = false ->
   exists argv,
     In argv allowed_argv /\
     out = (Ok "error", service false,
            [subprocess_run argv;
             Log ERROR ("Command handler error: " ++ w)])) /\
  (b = true ->
   fst (fst out) = Raise (Exception no_PropertiesChanged) /\
   List.length (runs (snd out)) =
     if verb command =? "REBOOT" then 0%nat else 1%nat).
Proof.
  destruct i as [r1 r2]. simpl in Hfail. subst r1.
  revert Hknown. open_command command p. intros Hknown.
  split_verb p;
    try (exfalso; simpl in Hknown;
         repeat (destruct Hknown as [Hknown|Hknown];
                 [rewrite <- Hknown in *; discriminate|]);
         exact Hknown);
    try (apply String.eqb_eq in E1; rewrite E1);
    try (apply String.eqb_eq in E2; rewrite E2);
    try (apply String.eqb_eq in E3; rewrite E3);
    try (apply String.eqb_eq in E4; rewrite E4);
    try (apply String.eqb_eq in E5; rewrite E5);
    try rewrite E6;
    outcomes;
    (split; intros Hb;
       first [ discriminate Hb
             | eexists; split; [|reflexivity]; simpl; tauto
             | split; reflexivity ]).
Qed.

(** ** Finding the adapter *)

(** [find_adapter] returns the first object, in the order of the
    dictionary, that has the GATT manager interface: everything before it
    lacks the interface; and it returns [None] exactly when no object has
    it. *)
Theorem find_adapter_first_match
    {V} (objects : list (string * list (string * V))) :
  (find_adapter objects = None <->
   forall o props, In (o, props) objects ->
                   has_key GATT_MANAGER_IFACE props = false) /\
  (forall o, find_adapter objects = Some o ->
   exists before props after,
     objects = (before ++ (o, props) :: after)%list /\
     has_key GATT_MANAGER_IFACE props = true /\
     forall o' props', In (o', props') before ->
                       has_key GATT_MANAGER_IFACE props' = false).
Proof.
  induction objects as [|[o1 p1] rest [IH1 IH2]]; simpl.
  - split; [split; [intros _ o props []|reflexivity]|discriminate].
  - destruct (has_key GATT_MANAGER_IFACE p1) eqn:E.
    + split.
      * split; [discriminate|].
        intros H. specialize (H o1 p1 (or_introl eq_refl)). congruence.
      * intros o H. inversion H; subst.
        exists [], p1, rest. repeat split; [exact E|]. intros ? ? [].
    + split.
      * rewrite IH1. split.
        -- intros H o props [Heq|Hin]; [inversion Heq; subst; exact E|eauto].
        -- intros H o props Hin. apply (H o props). now right.
      * intros o H. destruct (IH2 o H) as (before & props & after & -> & Hp & Hb).
        exists ((o1, p1) :: before), props, after. repeat split; [exact Hp|].
        intros o' props' [Heq|Hin]; [inversion Heq; subst; exact E|eauto].
Qed.


(** ** main *)

(** [main] enters the main loop exactly when an adapter with a non-empty
    path was found and the two property settings and the two registrations
    all returned.  Once it has entered the loop it unregisters the
    advertisement however the loop ends, and then the application if that
    first call returned.  Otherwise it unregisters nothing: an application
    registered before the advertisement was refused stays registered.
    Without an adapter no remote object is touched beyond the query. *)
Theorem main_cleans_up_what_it_entered
    (i : MainInput) (s0 : ThirdEyeService) :
  let tr := snd (main i s0) in
  let found :=
    match managed_objects i with
    | Ok objects => negb (falsy (find_adapter objects))
    | Raise _ => false
    end in
  let prepared := found && is_ok (set_powered i)
                  && is_ok (set_discoverable i) in
  let entered := prepared && is_ok (register_application i)
                 && is_ok (register_advertisement i) in
  count_loops tr = (if entered then 1%nat else 0%nat) /\
  count_calls "RegisterApplication" tr = (if prepared then 1%nat else 0%nat) /\
  count_calls "UnregisterAdvertisement" tr = count_loops tr /\
  count_calls "UnregisterApplication" tr =
    (if is_ok (unregister_advertisement i) then count_loops tr else 0%nat) /\
  (found = false ->
   count_calls "Set" tr = 0%nat /\
   count_calls "RegisterApplication" tr = 0%nat /\
   count_calls "RegisterAdvertisement" tr = 0%nat).
Proof.
  destruct i as [objects powered discoverable app ad lp unad unapp].
  unfold main.
  cbv beta iota zeta delta
    [Ble.bind Ble.ret try_except Ble.emit Ble.call Ble.put dbus
     managed_objects set_powered set_discoverable register_application
     register_advertisement loop unregister_advertisement
     unregister_application].
  destruct objects as [objects|e];
    [destruct (find_adapter objects) as [[|c adapter]|]|];
    unfold is_ok; outcomes; simpl; repeat split; intros; try discriminate.
Qed.


(** ** Object paths *)

Lemma append_cancel_l p a b : p ++ a = p ++ b -> a = b.
Proof. induction p as [|c p IH]; simpl; [auto|]. intros H. inversion H. auto. Qed.

Lemma string_append_assoc a b c : (a ++ b) ++ c = a ++ (b ++ c).
Proof. induction a as [|x a IH]; simpl; [reflexivity|]. now rewrite IH. Qed.

Lemma str_inj a b : str a = str b -> a = b.
Proof.
  unfold str. intros H. apply (f_equal NilEmpty.int_of_string) in H.
  rewrite !NilEmpty.isi in H. inversion H. now apply DecimalZ.to_int_inj.
Qed.

Lemma uint_no_slash d : all_chars not_slash (NilEmpty.string_of_uint d) = true.
Proof. induction d; simpl; auto. Qed.

Lemma str_no_slash z : all_chars not_slash (str z) = true.
Proof.
  unfold str. destruct (Z.to_int z); simpl; apply uint_no_slash.
Qed.

Lemma all_chars_slash a x : all_chars not_slash (a ++ String "/" x) = false.
Proof.
  induction a as [|c a IH]; simpl; [reflexivity|].
  rewrite IH. apply andb_false_r.
Qed.

(** Two texts cut at their first slash. *)
Lemma split_at_slash a a' x x' :
  all_chars not_slash a = true -> all_chars not_slash a' = true ->
  a ++ String "/" x = a' ++ String "/" x' -> a = a' /\ x = x'.
Proof.
  revert a'. induction a as [|c a IH]; intros [|c' a']; simpl.
  - intros _ _ H. injection H as Hx. auto.
  - intros _ H' H. injection H as Hc Hrest. subst c'. discriminate H'.
  - intros H' _ H. injection H as Hc Hrest. subst c. discriminate H'.
  - intros H1 H2 H. injection H as Hc Hrest. subst c'.
    apply andb_true_iff in H1. apply andb_true_iff in H2.
    destruct (IH a' (proj2 H1) (proj2 H2) Hrest) as [Ha Hx].
    subst. auto.
Qed.

(** The object paths built from indices never collide: services with
    different indices, characteristics with different indices or in
    different services, and advertisements all get different paths, and an
    object of one kind never shares its path with one of another kind. *)
Theorem object_paths_do_not_collide (i i' j j' k : Z) :
  (service_path i = service_path i' -> i = i') /\
  (characteristic_path (service_path i) j =
   characteristic_path (service_path i') j' -> i = i' /\ j = j') /\
  (advertisement_path i = advertisement_path i' -> i = i') /\
  characteristic_path (service_path i) j <> service_path k /\
  advertisement_path k <> service_path i /\
  advertisement_path k <> characteristic_path (service_path i) j.
Proof.
  unfold characteristic_path, service_path, advertisement_path.
  split; [|split; [|split; [|split; [|split]]]].
  - intros H. apply append_cancel_l in H. now apply str_inj.
  - rewrite !string_append_assoc. intros H. apply append_cancel_l in H.
    change (str i ++ String "/" ("char" ++ str j) =
            str i' ++ String "/" ("char" ++ str j')) in H.
    apply split_at_slash in H; try apply str_no_slash.
    destruct H as [Hi Hj]. apply str_inj in Hi.
    apply (append_cancel_l "char") in Hj. apply str_inj in Hj. auto.
  - intros H. apply append_cancel_l in H. now apply str_inj.
  - rewrite !string_append_assoc. intros H. apply append_cancel_l in H.
    pose proof (str_no_slash k) as Hk. rewrite <- H in Hk.
    change (str i ++ "/char" ++ str j)
      with (str i ++ String "/" ("char" ++ str j)) in Hk.
    rewrite all_chars_slash in Hk. discriminate Hk.
  - simpl. intros H. inversion H.
  - simpl. intros H. inversion H.
Qed.

(** ** GetManagedObjects *)

Lemma dict_set_fresh {V} key (v : V) d :
  ~ In key (map fst d) -> dict_set key v d = (d ++ [(key, v)])%list.
Proof.
  induction d as [|[k old] d IH]; simpl; [reflexivity|].
  intros H. destruct (String.eqb_spec k key) as [->|N].
  - exfalso. apply H. now left.
  - rewrite IH; [reflexivity|]. intros Hin. apply H. now right.
Qed.

Lemma dict_lookup_distinct {V} key (v : V) d :
  NoDup (map fst d) -> In (key, v) d -> dict_lookup key d = Some v.
Proof.
  induction d as [|[k old] d IH]; simpl; [intros _ []|].
  intros Hnd [Heq|Hin].
  - inversion Heq; subst. now rewrite String.eqb_refl.
  - inversion Hnd; subst. destruct (String.eqb_spec k key) as [->|N].
    + exfalso. apply H1. apply (in_map fst) in Hin. exact Hin.
    + auto.
Qed.

Lemma add_characteristics_distinct chrcs acc :
  NoDup (map fst (acc ++ map (fun c => (chrc_path c,
                                        Characteristic_get_properties c))
                        chrcs)%list) ->
  add_characteristics chrcs acc =
    (acc ++ map (fun c => (chrc_path c, Characteristic_get_properties c))
       chrcs)%list.
Proof.
  revert acc. induction chrcs as [|c chrcs IH]; intros acc H; simpl.
  - now rewrite app_nil_r.
  - unfold add_characteristics in *. simpl.
    rewrite dict_set_fresh.
    + rewrite IH; rewrite <- app_assoc; [reflexivity | exact H].
    + rewrite map_app in H. apply NoDup_remove_2 in H.
      intros Hin. apply H. apply in_or_app. now left.
Qed.

(** When the objects of the application have pairwise different paths,
    [GetManagedObjects] reports every one of them, each service followed by
    its characteristics in the order they were added, each under its own
    path with its own properties, and nothing else. *)
Theorem managed_objects_lists_every_object
    (services : list Service)
    (Hdistinct : NoDup (map fst (objects_of services))) :
  GetManagedObjects services = objects_of services /\
  (forall path entry,
     In (path, entry) (objects_of services) ->
     dict_lookup path (GetManagedObjects services) = Some entry).
Proof.
  assert (G : forall acc,
            NoDup (map fst (acc ++ objects_of services)%list) ->
            fold_left
              (fun r s =>
                 add_characteristics (svc_characteristics s)
                   (dict_set (svc_path s) (Service_get_properties s) r))
              services acc = (acc ++ objects_of services)%list).
  { clear Hdistinct. induction services as [|s rest IH]; intros acc H.
    - simpl. now rewrite app_nil_r.
    - set (x := (svc_path s, Service_get_properties s)).
      set (cs := map (fun c => (chrc_path c, Characteristic_get_properties c))
                   (svc_characteristics s)).
      assert (Eq : (acc ++ objects_of (s :: rest) =
                    ((acc ++ [x]) ++ cs) ++ objects_of rest)%list).
      { unfold objects_of. simpl. fold x cs.
        rewrite <- !app_assoc. reflexivity. }
      rewrite Eq in H. rewrite Eq.
      change (fold_left _ (s :: rest) acc)
        with (fold_left
                (fun r s0 =>
                   add_characteristics (svc_characteristics s0)
                     (dict_set (svc_path s0) (Service_get_properties s0) r))
                rest
                (add_characteristics (svc_characteristics s)
                   (dict_set (svc_path s) (Service_get_properties s) acc))).
      assert (H2 : NoDup (map fst ((acc ++ [x]) ++ cs)%list)).
      { rewrite map_app in H. apply NoDup_app_remove_r in H. exact H. }
      assert (H1 : ~ In (svc_path s) (map fst acc)).
      { rewrite !map_app in H2. rewrite <- app_assoc in H2. simpl in H2.
        apply NoDup_remove_2 in H2. intros Hin. apply H2.
        apply in_or_app. now left. }
      rewrite (dict_set_fresh _ _ _ H1). fold x.
      rewrite (add_characteristics_distinct _ _ H2). fold cs.
      apply IH. exact H. }
  assert (E : GetManagedObjects services = objects_of services)
    by (apply (G []); exact Hdistinct).
  split; [exact E|]. intros path entry Hin. rewrite E.
  now apply dict_lookup_distinct.
Qed.


(** ** The definitions at work *)

Lemma command_word_is_normalised_witness :
  all_space "  " = true /\ lstrip "reboot" = "reboot" /\
  verb "  reboot:now " = "REBOOT".
Proof.
  split; [reflexivity|]. split; [reflexivity|].
  exact (proj1 (proj2
    (command_word_is_normalised "  " " " "reboot" "now "
       (all_well "a" "b") (service true)
       eq_refl eq_refl eq_refl eq_refl eq_refl eq_refl))).
Defined.

Lemma reboot_happens_exactly_when_witness :
  is_ascii " Reboot" = true /\
  reboots (snd (handle_command " Reboot" (all_well "a" "b") (service false)))
    = true /\
  reboots (snd (handle_command " Reboot" (all_well "a" "b") (service true)))
    = false.
Proof.
  split; [reflexivity|]. split.
  - exact (reboot_happens_exactly_when " Reboot" (all_well "a" "b") false
             eq_refl).
  - exact (reboot_happens_exactly_when " Reboot" (all_well "a" "b") true
             eq_refl).
Defined.

Lemma notifying_makes_every_command_raise_witness :
  is_ascii "status" = true /\
  not_fatal (run1 (all_well "active" "inactive")) /\
  fst (fst (handle_command "status" (all_well "active" "inactive")
              (service true))) =
    Raise (Exception no_PropertiesChanged).
Proof.
  split; [reflexivity|]. split; [exact I|].
  exact (proj1 (proj2 (proj2
    (notifying_makes_every_command_raise "status"
       (all_well "active" "inactive") eq_refl I I)))).
Defined.

Lemma unknown_command_is_refused_witness :
  ~ In (verb "format c") known_commands /\
  handle_command "format c" (all_well "a" "b") (service false) =
    (Ok "error", service false, []).
Proof.
  assert (H : ~ In (verb "format c") known_commands).
  { simpl. intros [H|[H|[H|[H|[H|[H|[H|[]]]]]]]]; discriminate H. }
  split; [exact H|].
  exact (proj1 (proj2 (proj2
    (unknown_command_is_refused "format c" (all_well "a" "b") false
       eq_refl H))) eq_refl).
Defined.

Lemma failed_action_is_reported_witness :
  In (verb "wifi_start") known_commands /\
  fst (fst (handle_command "wifi_start"
              (mkCommandInput (Raise (Exception "no sudo")) (Ok EmptyString))
              (service true))) =
    Raise (Exception no_PropertiesChanged) /\
  List.length
    (runs (snd (handle_command "wifi_start"
                  (mkCommandInput (Raise (Exception "no sudo"))
                     (Ok EmptyString))
                  (service true)))) = 1%nat.
Proof.
  assert (H : In (verb "wifi_start") known_commands)
    by (right; left; reflexivity).
  split; [exact H|].
  exact (proj2
    (failed_action_is_reported "wifi_start"
       (mkCommandInput (Raise (Exception "no sudo")) (Ok EmptyString))
       true "no sudo" eq_refl H eq_refl) eq_refl).
Defined.

Lemma managed_objects_lists_every_object_witness :
  NoDup (map fst (objects_of (thirdeye_services false))) /\
  map fst (GetManagedObjects (thirdeye_services false)) =
    [ "/org/bluez/thirdeye/service0";
      "/org/bluez/thirdeye/service0/char0";
      "/org/bluez/thirdeye/service0/char1" ].
Proof.
  assert (H : NoDup (map fst (objects_of (thirdeye_services false)))).
  { simpl. repeat constructor; simpl;
      intros H; repeat (destruct H as [H|H]; [discriminate H|]); exact H. }
  split; [exact H|].
  exact (f_equal (map fst)
           (proj1 (managed_objects_lists_every_object
                     (thirdeye_services false) H))).
Defined.

End BleProperties.
